(** * Mini F1 telemetry dashboard: the comparison core of [app.py]

    A shallow embedding of [F1Service.compare_fastest], of the lap-time delta
    and the delta-time curve computed by the dashboard script, and of
    [F1Service.format_laptime], together with the properties the
    specification states about them.

    Numbers.  A Python/NumPy [float] is modelled by [pyfloat]: an exact
    rational, or [NaN].  Arithmetic is therefore the arithmetic of the reals
    restricted to the rationals: binary64 rounding and the infinities are
    outside the model.  A pandas [Timedelta] is an integer count of
    nanoseconds or [NaT], as pandas stores it.

    Library calls.  [np.linspace], [np.interp], [Series.min]/[Series.max],
    the builtins [max]/[min] and the float format specifications are
    transcribed from the behaviour of NumPy, pandas and CPython; in
    particular [np.interp] follows NumPy's [arr_interp] with its
    [binary_search_with_guess]. *)

From Stdlib Require Import ZArith QArith Qround Qminmax Qabs Lqa Lia.
From Stdlib Require Import Bool String Ascii DecimalString.
From Stdlib Require Import List Sorted Permutation OrderedTypeEx.
Import ListNotations.

Local Open Scope Q_scope.

(** ** Floats *)

Inductive pyfloat : Type :=
| Fin (q : Q)
| NaN.

Definition fbinop (op : Q -> Q -> Q) (a b : pyfloat) : pyfloat :=
  match a, b with
  | Fin x, Fin y => Fin (op x y)
  | _, _ => NaN
  end.

Definition fadd := fbinop Qplus.
Definition fsub := fbinop Qminus.
Definition fmul := fbinop Qmult.
Definition fdiv := fbinop Qdiv.

(** Comparisons: every comparison with [NaN] is false. *)
Definition fcmp (c : Q -> Q -> bool) (a b : pyfloat) : bool :=
  match a, b with
  | Fin x, Fin y => c x y
  | _, _ => false
  end.

Definition Qlt_bool (x y : Q) : bool := negb (Qle_bool y x).

Definition fle := fcmp Qle_bool.
Definition flt := fcmp Qlt_bool.
Definition fgt (a b : pyfloat) := flt b a.
Definition feqb := fcmp Qeq_bool.

Definition of_Z (z : Z) : pyfloat := Fin (inject_Z z).
Definition of_nat (n : nat) : pyfloat := of_Z (Z.of_nat n).

(** ** Exceptions *)

Inductive exn : Type :=
| ValueError (msg : string)
| OverflowError.

Inductive result (A : Type) : Type :=
| Ok (a : A)
| Raise (e : exn).
Arguments Ok {A} a.
Arguments Raise {A} e.

Definition bind {A B} (m : result A) (k : A -> result B) : result B :=
  match m with
  | Ok a => k a
  | Raise e => Raise e
  end.

Notation "x <- m ;; k" := (bind m (fun x => k))
  (at level 61, m at next level, right associativity).

(** ** pandas and builtins *)

(** [Series.min()] and [Series.max()] of a float column; [nan] when the
    column is empty. *)
Definition series_min (col : list Q) : pyfloat :=
  match col with
  | [] => NaN
  | x :: r => Fin (fold_left Qmin r x)
  end.

Definition series_max (col : list Q) : pyfloat :=
  match col with
  | [] => NaN
  | x :: r => Fin (fold_left Qmax r x)
  end.

(** The builtins [max(a, b)] and [min(a, b)]: the first argument is kept
    unless the second compares strictly beyond it. *)
Definition py_max (a b : pyfloat) : pyfloat := if fgt b a then b else a.
Definition py_min (a b : pyfloat) : pyfloat := if flt b a then b else a.

(** ** [np.linspace(start, stop, num)] with [endpoint=True] *)

Definition arange (n : nat) : list pyfloat := map of_nat (seq 0 n).

(** [y[-1] = v] *)
Definition set_last (y : list pyfloat) (v : pyfloat) : list pyfloat :=
  removelast y ++ [v].

Definition linspace (start stop : pyfloat) (num : nat) : list pyfloat :=
  let div := (num - 1)%nat in
  let delta := fsub stop start in
  let y := arange num in
  let y :=
    if (0 <? div)%nat then
      let step := fdiv delta (of_nat div) in
      if feqb step (of_Z 0)
      then map (fun v => fmul (fdiv v (of_nat div)) delta) y
      else map (fun v => fmul v step) y
    else map (fun v => fmul v delta) y in
  let y := map (fun v => fadd v start) y in
  if (1 <? num)%nat then set_last y stop else y.

(** ** [np.interp(x, xp, fp)] *)

(** [arr[i]] for a C index [i]. *)
Definition at_ (arr : list Q) (i : Z) : Q := nth (Z.to_nat i) arr 0.

(** [for (i = i0; i < len && key >= arr[i]; i++); return i - 1;] *)
Fixpoint linear_loop (fuel : nat) (key : Q) (arr : list Q) (len i : Z) : Z :=
  match fuel with
  | O => i
  | S f =>
      if (i <? len)%Z && Qle_bool (at_ arr i) key
      then linear_loop f key arr len (i + 1)
      else i
  end.

Definition linear_search (key : Q) (arr : list Q) (len i0 : Z) : Z :=
  (linear_loop (Z.to_nat len) key arr len i0 - 1)%Z.

(** [while (imin < imax) { imid = imin + ((imax - imin) >> 1); ... }] *)
Fixpoint bisect (fuel : nat) (key : Q) (arr : list Q) (imin imax : Z) : Z :=
  match fuel with
  | O => imin
  | S f =>
      if (imin <? imax)%Z then
        let imid := (imin + Z.shiftr (imax - imin) 1)%Z in
        if Qle_bool (at_ arr imid) key
        then bisect f key arr (imid + 1) imax
        else bisect f key arr imin imid
      else imin
  end.

Definition LIKELY_IN_CACHE_SIZE : Z := 8.

Definition binary_search_with_guess
    (key : Q) (arr : list Q) (len guess : Z) : Z :=
  if Qlt_bool (at_ arr (len - 1)) key then len
  else if Qlt_bool key (at_ arr 0) then (-1)%Z
  else if (len <=? 4)%Z then linear_search key arr len 1
  else
    let guess := if (len - 3 <? guess)%Z then (len - 3)%Z else guess in
    let guess := if (guess <? 1)%Z then 1%Z else guess in
    let fuel := Z.to_nat len in
    if Qlt_bool key (at_ arr guess) then
      if Qlt_bool key (at_ arr (guess - 1)) then
        let imax := (guess - 1)%Z in
        let imin :=
          if (LIKELY_IN_CACHE_SIZE <? guess)%Z
             && Qle_bool (at_ arr (guess - LIKELY_IN_CACHE_SIZE)) key
          then (guess - LIKELY_IN_CACHE_SIZE)%Z else 0%Z in
        (bisect fuel key arr imin imax - 1)%Z
      else (guess - 1)%Z
    else if Qlt_bool key (at_ arr (guess + 1)) then guess
    else if Qlt_bool key (at_ arr (guess + 2)) then (guess + 1)%Z
    else
      let imin := (guess + 2)%Z in
      let imax :=
        if (guess <? len - LIKELY_IN_CACHE_SIZE - 1)%Z
           && Qlt_bool key (at_ arr (guess + LIKELY_IN_CACHE_SIZE))
        then (guess + LIKELY_IN_CACHE_SIZE)%Z else len in
      (bisect fuel key arr imin imax - 1)%Z.

(** One iteration of the main loop of [arr_interp] for a finite [x_val]:
    the new search index and [dres[i]].  The slope is the one NumPy either
    precomputes or computes on the spot, [(dy[j+1]-dy[j]) / (dx[j+1]-dx[j])].
    It is only used where the search has found [dx[j] <= x_val < dx[j+1]],
    so its divisor is not zero there.  NumPy's retry for a [nan] result is
    left out: rational arithmetic on finite values produces none. *)
Definition interp_point (dx dy : list Q) (lenxp : Z) (lval rval : Q)
    (j : Z) (x_val : Q) : Z * Q :=
  let j := binary_search_with_guess x_val dx lenxp j in
  if (j =? -1)%Z then (j, lval)
  else if (j =? lenxp)%Z then (j, rval)
  else if (j =? lenxp - 1)%Z then (j, at_ dy j)
  else if Qeq_bool (at_ dx j) x_val then (j, at_ dy j)
  else
    let slope := (at_ dy (j + 1) - at_ dy j) / (at_ dx (j + 1) - at_ dx j) in
    (j, slope * (x_val - at_ dx j) + at_ dy j).

(** The loop over the query points; a [nan] query is copied to the output
    and leaves the search index alone. *)
Fixpoint interp_loop (dx dy : list Q) (lenxp : Z) (lval rval : Q)
    (j : Z) (dz : list pyfloat) : list pyfloat :=
  match dz with
  | [] => []
  | NaN :: r => NaN :: interp_loop dx dy lenxp lval rval j r
  | Fin x_val :: r =>
      let '(j', v) := interp_point dx dy lenxp lval rval j x_val in
      Fin v :: interp_loop dx dy lenxp lval rval j' r
  end.

Definition np_interp (x : list pyfloat) (xp fp : list Q)
    : result (list pyfloat) :=
  let lenxp := Z.of_nat (length xp) in
  if (lenxp =? 0)%Z then
    Raise (ValueError "array of sample points is empty")
  else if negb (Z.of_nat (length fp) =? lenxp)%Z then
    Raise (ValueError "fp and xp are not of the same length.")
  else
    let lval := at_ fp 0 in
    let rval := at_ fp (lenxp - 1) in
    if (lenxp =? 1)%Z then
      let xp_val := Fin (at_ xp 0) in
      let fp_val := at_ fp 0 in
      Ok (map (fun x_val =>
                 if flt x_val xp_val then Fin lval
                 else if fgt x_val xp_val then Fin rval
                 else Fin fp_val) x)
    else Ok (interp_loop xp fp lenxp lval rval 0 x).

(** ** Telemetry and [F1Service.compare_fastest] *)

(** The columns of the telemetry frame the comparison reads.  [SessionTime]
    is a column of [Timedelta]s (nanoseconds) that may be missing from the
    frame. *)
Record telemetry : Type := {
  Distance : list Q;
  SessionTime : option (list Z);
  Speed : list Q
}.

(** [comp_df]: the columns ["Distance"], [f"{d1}_Speed"], [f"{d2}_Speed"]. *)
Record comparison : Type := {
  comp_Distance : list pyfloat;
  comp_Speed1 : list pyfloat;
  comp_Speed2 : list pyfloat
}.

Definition to_numpy (col : list Q) : list pyfloat := map Fin col.

Definition dmin (tel1 tel2 : telemetry) : pyfloat :=
  py_max (series_min (Distance tel1)) (series_min (Distance tel2)).

Definition dmax (tel1 tel2 : telemetry) : pyfloat :=
  py_min (series_max (Distance tel1)) (series_max (Distance tel2)).

(** Lines 40-45: [dmin], [dmax] and the shared distance grid [dist]. *)
Definition dist (tel1 tel2 : telemetry) : list pyfloat :=
  let dmin := dmin tel1 tel2 in
  let dmax := dmax tel1 tel2 in
  if fle dmax dmin then to_numpy (Distance tel1)
  else linspace dmin dmax 1200.

Definition compare_fastest (tel1 tel2 : telemetry) : result comparison :=
  let dist := dist tel1 tel2 in
  s1 <- np_interp dist (Distance tel1) (Speed tel1) ;;
  s2 <- np_interp dist (Distance tel2) (Speed tel2) ;;
  Ok {| comp_Distance := dist; comp_Speed1 := s1; comp_Speed2 := s2 |}.

(** ** Timedeltas and the lap-time delta (script, lines 128-137) *)

(** A pandas [Timedelta] holds a 64-bit count of nanoseconds; [NaT] is the
    missing value.  [pd.to_timedelta] of either is the value itself. *)
Inductive timedelta : Type :=
| Timedelta (value : Z)
| NaT.

Record lap : Type := { LapTime : timedelta }.

Definition to_timedelta (t : timedelta) : timedelta := t.

Definition in_int64 (z : Z) : bool :=
  ((- 2 ^ 63 <? z) && (z <? 2 ^ 63))%Z.

(** [td1 - td2]: [NaT] is absorbing; a difference that does not fit the
    64-bit representation raises an overflow error, which the script's
    [except Exception] catches. *)
Definition td_sub (a b : timedelta) : result timedelta :=
  match a, b with
  | Timedelta x, Timedelta y =>
      let r := (x - y)%Z in
      if in_int64 r then Ok (Timedelta r) else Raise OverflowError
  | _, _ => Ok NaT
  end.

(** [Timedelta.total_seconds()]: the duration in seconds, [nan] for [NaT].
    The value is the exact quotient; pandas returns the double it computes
    for it from the days, seconds and microseconds of the duration. *)
Definition total_seconds (t : timedelta) : pyfloat :=
  match t with
  | Timedelta v => Fin (v # 1000000000)
  | NaT => NaN
  end.

(** The [try] block and its [except Exception] fallback. *)
Definition delta_seconds (lap1 lap2 : lap) : pyfloat :=
  let td1 := to_timedelta (LapTime lap1) in
  let td2 := to_timedelta (LapTime lap2) in
  match td_sub td1 td2 with
  | Ok delta_td => total_seconds delta_td
  | Raise _ =>
      fsub (total_seconds (to_timedelta (LapTime lap1)))
           (total_seconds (to_timedelta (LapTime lap2)))
  end.

(** ** Number formatting *)

(** [str] of an integer. *)
Definition string_of_Z (z : Z) : string := NilZero.string_of_int (Z.to_int z).

Definition digit (d : Z) : ascii := ascii_of_nat (48 + Z.to_nat d).

(** Correct rounding of the exact value to an integer, ties to even. *)
Definition round_half_even (q : Q) : Z :=
  let f := Qfloor q in
  match Qcompare (q - inject_Z f) (1 # 2) with
  | Lt => f
  | Gt => (f + 1)%Z
  | Eq => if Z.even f then f else (f + 1)%Z
  end.

(** The digits of [m] thousandths: integer part, point, three decimals. *)
Definition fixed3 (m : Z) : string :=
  (string_of_Z (m / 1000)
   ++ String "."
        (String (digit (m / 100 mod 10))
           (String (digit (m / 10 mod 10))
              (String (digit (m mod 10)) EmptyString))))%string.

Fixpoint zeros (n : nat) : string :=
  match n with
  | O => EmptyString
  | S k => String "0" (zeros k)
  end.

(** [format(x, "[+][0][width].3f")]: [plus] is the [+] flag, [width] the
    minimum width of a zero-padded field ([0] when the spec has none).
    The padding goes between the sign and the digits. *)
Definition format_3f (plus : bool) (width : nat) (x : pyfloat) : string :=
  let pad (sign body : string) : string :=
    (sign
     ++ zeros (width - String.length sign - String.length body)
     ++ body)%string in
  match x with
  | NaN => pad (if plus then "+" else "")%string "nan"%string
  | Fin q =>
      let sign :=
        if Qlt_bool q 0 then "-"%string
        else if plus then "+"%string else ""%string in
      pad sign (fixed3 (round_half_even (Qabs q * 1000)))
  end.

(** [delta_str = f"{delta_seconds:+.3f}s"] *)
Definition delta_str (delta_seconds : pyfloat) : string :=
  (format_3f true 0 delta_seconds ++ "s")%string.

(** ** [F1Service.format_laptime] *)

Definition isna (t : timedelta) : bool :=
  match t with NaT => true | Timedelta _ => false end.

(** Float [//] and [%] by a positive divisor, and [int()]. *)
Definition py_floordiv (x y : Q) : Q := inject_Z (Qfloor (x / y)).
Definition py_mod (x y : Q) : Q := x - y * inject_Z (Qfloor (x / y)).
Definition py_int (x : Q) : Z := Z.quot (Qnum x) (Zpos (Qden x)).

(** [minutes = int(total_seconds // 60)] and [seconds = total_seconds % 60] *)
Definition minutes_of (total_seconds : Q) : Z :=
  py_int (py_floordiv total_seconds 60).
Definition seconds_of (total_seconds : Q) : Q := py_mod total_seconds 60.

Definition format_laptime (lap_time : timedelta) : result string :=
  if isna lap_time then Ok "N/A"%string
  else
    match total_seconds lap_time with
    | NaN => Raise (ValueError "cannot convert float NaN to integer")
    | Fin total_seconds =>
        let minutes := minutes_of total_seconds in
        let seconds := seconds_of total_seconds in
        Ok (string_of_Z minutes ++ ":" ++ format_3f false 6 (Fin seconds))%string
    end.

(** ** The delta-time curve (script, lines 176-183) *)

Definition dt_total_seconds (col : list Z) : list Q :=
  map (fun v => v # 1000000000) col.

(** Element-wise [t1 - t2] of two arrays of the same length. *)
Fixpoint arr_sub (t1 t2 : list pyfloat) : list pyfloat :=
  match t1, t2 with
  | a :: r1, b :: r2 => fsub a b :: arr_sub r1 r2
  | _, _ => []
  end.

(** [None] when the [if] on the two [SessionTime] columns skips the block. *)
Definition delta_time (tel1 tel2 : telemetry) (comp_df : comparison)
    : result (option (list pyfloat)) :=
  match SessionTime tel1, SessionTime tel2 with
  | Some st1, Some st2 =>
      let t1_sec := dt_total_seconds st1 in
      let t2_sec := dt_total_seconds st2 in
      t1 <- np_interp (comp_Distance comp_df) (Distance tel1) t1_sec ;;
      t2 <- np_interp (comp_Distance comp_df) (Distance tel2) t2_sec ;;
      Ok (Some (arr_sub t1 t2))
  | _, _ => Ok None
  end.

(** ** The season select box (script, lines 72-73) *)

(** [list(range(start, stop, -1))] *)
Definition range_down (start stop : Z) : list Z :=
  map (fun i => (start - Z.of_nat i)%Z) (seq 0 (Z.to_nat (start - stop))).

(** [options=list(range(max_year, min_year-1, -1))]; the script binds
    [min_year, max_year = 2018, 2025]. *)
Definition season_options (min_year max_year : Z) : list Z :=
  range_down max_year (min_year - 1).

(** ** Brake trace of the throttle and brake plot (script, lines 160-170) *)

(** [tel["Brake"]*100 if tel["Brake"].max() <= 1 else tel["Brake"]] *)
Definition brake_percent (brake : list Q) : list Q :=
  if fle (series_max brake) (Fin 1)
  then map (fun b => b * 100) brake
  else brake.

(** ** Data frames by column *)

(** The columns of a frame in their order, each with its name. *)
Definition has_column {C : Type} (name : string) (cols : list (string * C))
    : bool :=
  existsb (fun kv => String.eqb (fst kv) name) cols.

Fixpoint getitem {C : Type} (name : string) (cols : list (string * C))
    : option C :=
  match cols with
  | [] => None
  | (k, v) :: r => if String.eqb k name then Some v else getitem name r
  end.

(** [df[names]] for a list of names that are all columns of [df]. *)
Definition getitem_list {C : Type} (names : list string)
    (cols : list (string * C)) : list (string * C) :=
  flat_map (fun c => filter (fun kv => String.eqb (fst kv) c) cols) names.

(** [df[name] = v]: the column is replaced where it stands, or appended. *)
Definition setitem {C : Type} (name : string) (v : C)
    (cols : list (string * C)) : list (string * C) :=
  if has_column name cols
  then map (fun kv => if String.eqb (fst kv) name then (name, v) else kv) cols
  else cols ++ [(name, v)].

(** ** [F1Service.list_drivers] *)

(** [Series.dropna()] on a column of driver codes with missing entries. *)
Definition dropna (col : list (option string)) : list string :=
  flat_map (fun o => match o with Some d => [d] | None => [] end) col.

(** [Series.unique()]: the values in order of first appearance. *)
Fixpoint unique_from (seen : list string) (col : list string) : list string :=
  match col with
  | [] => []
  | x :: r =>
      if existsb (String.eqb x) seen then unique_from seen r
      else x :: unique_from (x :: seen) r
  end.

Definition unique (col : list string) : list string := unique_from [] col.

(** [list.sort()] on strings: a stable sort by the lexicographic order of
    the characters, here by insertion. *)
Fixpoint insert_sorted (x : string) (l : list string) : list string :=
  match l with
  | [] => [x]
  | y :: r => if String.leb x y then x :: l else y :: insert_sorted x r
  end.

Definition list_sort (l : list string) : list string :=
  fold_right insert_sorted [] l.

(** The argument is the column [session.laps["Driver"]]. *)
Definition list_drivers (laps_Driver : list (option string)) : list string :=
  let drivers := unique (dropna laps_Driver) in
  list_sort drivers.

(** ** [F1Service.fastest_lap_telemetry], after [lap.get_telemetry()] *)

Inductive column : Type :=
| FloatColumn (values : list Q)
| TimedeltaColumn (values : list Z)
| StrColumn (values : list string).

Record frame : Type := {
  nrows : nat;
  columns : list (string * column)
}.

Definition TELEMETRY_COLUMNS : list string :=
  ["Distance"; "SessionTime"; "Speed"; "Throttle"; "Brake"; "nGear"; "RPM"]
  %string.

(** Lines 29-34, for the lap and the frame the session has picked. *)
Definition fastest_lap_telemetry (picked : lap) (tel : frame)
    (driver_code : string) : lap * frame :=
  let cols := filter (fun c => has_column c (columns tel)) TELEMETRY_COLUMNS in
  let tel := {| nrows := nrows tel;
                columns := getitem_list cols (columns tel) |} in
  let tel := {| nrows := nrows tel;
                columns := setitem "Driver"
                             (StrColumn (repeat driver_code (nrows tel)))
                             (columns tel) |} in
  (picked, tel).

(** ** The Grand Prix options (script, lines 79-99) *)

(** [sub in s] on strings. *)
Fixpoint contains (sub s : string) : bool :=
  String.prefix sub s
  || match s with
     | EmptyString => false
     | String _ r => contains sub r
     end.

(** What the [except Exception] of the schedule block can catch: a failure
    of [service.get_schedule(year)], a missing column, or a selection that
    has no [tolist]. *)
Inductive caught : Type :=
| fetch_failure (e : exn)
| KeyError (key : string)
| AttributeError.

(** What the page shows when it stops before the Grand Prix select box. *)
Inductive notice : Type :=
| schedule_error (e : caught)
| no_events_warning.

(** [schedule[name].tolist()].  A label that names one column selects that
    column; a label of no column raises [KeyError]; a label that names
    several columns selects a frame, and a frame has no [tolist]. *)
Definition column_tolist (name : string)
    (schedule : list (string * list string)) : caught + list string :=
  match filter (fun kv => String.eqb (fst kv) name) schedule with
  | [] => inl (KeyError name)
  | [(_, col)] => inr col
  | _ :: _ :: _ => inl AttributeError
  end.

(** The schedule is a frame of text columns; [fetched] is what
    [service.get_schedule(year)] returned or raised.  The options are the
    event names without pre-season testing; the page stops on an exception
    of the [try] block and on an empty list. *)
Definition grand_prix_options (fetched : result (list (string * list string)))
    : notice + list string :=
  match fetched with
  | Raise e => inl (schedule_error (fetch_failure e))
  | Ok schedule =>
      let gps :=
        if has_column "EventName" schedule then
          column_tolist "EventName" schedule
        else
          let possible_cols :=
            filter (fun c => has_column c schedule)
                   ["OfficialEventName"; "Event"]%string in
          match possible_cols with
          | c :: _ => column_tolist c schedule
          | [] => inr []
          end in
      match gps with
      | inl e => inl (schedule_error e)
      | inr gps =>
          let gps := filter (fun gp => negb (contains "Testing" gp)) gps in
          match gps with
          | [] => inl no_events_warning
          | _ :: _ => inr gps
          end
      end
  end.

(** ** Vocabulary of the statements *)

(** The closed form of the [i]-th grid value between finite endpoints [a]
    and [b], for a grid of [n + 2] values, and the list of these values with
    the last one overwritten by [b]. *)
Definition linspace_point (a b : Q) (n i : nat) : Q :=
  inject_Z (Z.of_nat i) * ((b - a) / inject_Z (Z.of_nat (S n))) + a.

Definition linspace_values (a b : Q) (n : nat) : list Q :=
  map (linspace_point a b n) (seq 0 (S n)) ++ [b].

(** A column whose values never decrease, resp. always increase. *)
Fixpoint nondecreasingb (col : list Q) : bool :=
  match col with
  | [] => true
  | x :: r =>
      match r with
      | [] => true
      | y :: _ => Qle_bool x y && nondecreasingb r
      end
  end.

Fixpoint increasingb (col : list Q) : bool :=
  match col with
  | [] => true
  | x :: r =>
      match r with
      | [] => true
      | y :: _ => Qlt_bool x y && increasingb r
      end
  end.

(** What [arr_interp] expects of the index search: [j] is a valid index,
    [arr[j] <= key], and [key < arr[j+1]] unless [j] is the last index. *)
Definition bracket (arr : list Q) (len : Z) (key : Q) (j : Z) : Prop :=
  (0 <= j < len)%Z /\ at_ arr j <= key /\
  ((j < len - 1)%Z -> key < at_ arr (j + 1)).

(** The piecewise-linear interpolant of the samples [(xp, fp)] with
    clamping, as a relation between a query point [x] and a value [v]:
    the first speed below the first sample, the last speed above the last
    sample, the speed of a sample that is the last one at the distance [x],
    and the weighted mean of the two neighbours strictly between two
    consecutive samples. *)
Definition interp_spec (xp fp : list Q) (x v : Q) : Prop :=
  let n := length xp in
  (x < nth 0 xp 0 -> v = nth 0 fp 0)
  /\ (nth (n - 1) xp 0 < x -> v = nth (n - 1) fp 0)
  /\ (forall k, (k < n)%nat -> nth k xp 0 == x ->
        ((S k < n)%nat -> x < nth (S k) xp 0) -> v = nth k fp 0)
  /\ (forall k, (S k < n)%nat -> nth k xp 0 < x -> x < nth (S k) xp 0 ->
        v == nth k fp 0
             + (nth (S k) fp 0 - nth k fp 0) * (x - nth k xp 0)
               / (nth (S k) xp 0 - nth k xp 0)).

(** Clamping in terms of the lap's minimum and maximum distance. *)
Definition clamps (xp fp : list Q) (x v : Q) : Prop :=
  (flt (Fin x) (series_min xp) = true -> v = nth 0 fp 0)
  /\ (fgt (Fin x) (series_max xp) = true -> v = nth (length xp - 1) fp 0).

(** [out] holds, for every point of the grid [g], the interpolant of the
    samples [(xp, fp)] at that point. *)
Definition interpolated (xp fp g : list Q) (out : list pyfloat) : Prop :=
  length out = length g
  /\ forall i, (i < length g)%nat ->
       exists v, nth i out NaN = Fin v
                 /\ interp_spec xp fp (nth i g 0) v
                 /\ clamps xp fp (nth i g 0) v.

(** [m] is the least, resp. [M] the greatest, value of the column. *)
Definition least_of (col : list Q) (m : Q) : bool :=
  existsb (Qeq_bool m) col && forallb (Qle_bool m) col.

Definition greatest_of (col : list Q) (M : Q) : bool :=
  existsb (Qeq_bool M) col && forallb (fun y => Qle_bool y M) col.

(** [secs] holds the durations [st], given in nanoseconds, in seconds. *)
Definition in_seconds (st : list Z) (secs : list Q) : Prop :=
  length secs = length st
  /\ forall k, (k < length st)%nat ->
       nth k secs 0 * 1000000000 == inject_Z (nth k st 0%Z).

(** What the script computes for the delta plot from the comparison [c] on
    the finite grid [g]: with both [SessionTime] columns, the two session
    times in seconds interpolated on the grid and their point-wise
    difference, lap A minus lap B; without one of them, nothing. *)
Definition delta_curve_spec
    (delta : result (option (list pyfloat)))
    (tel1 tel2 : telemetry) (c : comparison) (g : list Q) : Prop :=
  match SessionTime tel1, SessionTime tel2 with
  | Some st1, Some st2 =>
      exists secs1 secs2 t1 t2 d,
        in_seconds st1 secs1
        /\ in_seconds st2 secs2
        /\ interpolated (Distance tel1) secs1 g t1
        /\ interpolated (Distance tel2) secs2 g t2
        /\ delta = Ok (Some d)
        /\ length d = length g
        /\ forall i, (i < length g)%nat ->
             exists a b,
               nth i t1 NaN = Fin a /\ nth i t2 NaN = Fin b
               /\ nth i d NaN = Fin (a - b)
               /\ (0 < a - b <-> b < a)
  | _, _ => delta = Ok None
  end.

(** The names [gps] are the names [names] without those in which
    "Testing" occurs, in the same order and as often. *)
Inductive without_testing : list string -> list string -> Prop :=
| wt_nil : without_testing [] []
| wt_keep (x : string) (l l' : list string) :
    ~ (exists pre post : string, x = (pre ++ "Testing" ++ post)%string) ->
    without_testing l l' -> without_testing (x :: l) (x :: l')
| wt_drop (x : string) (l l' : list string) :
    (exists pre post : string, x = (pre ++ "Testing" ++ post)%string) ->
    without_testing l l' -> without_testing (x :: l) l'.

(** How many columns of the frame carry the label. *)
Definition label_count {C : Type} (name : string) (cols : list (string * C))
    : nat :=
  count_occ String.string_dec (map fst cols) name.

(** The label the schedule block reads the event names from: the first of
    the three that labels a column. *)
Definition event_label (schedule : list (string * list string))
    : option string :=
  find (fun c => 0 <? label_count c schedule)%nat
       ["EventName"; "OfficialEventName"; "Event"]%string.

(** The frame invariant of pandas: all columns have the same length. *)
Definition frame_ok (tel : telemetry) : bool :=
  (length (Speed tel) =? length (Distance tel))%nat
  && match SessionTime tel with
     | Some st => (length st =? length (Distance tel))%nat
     | None => true
     end.

(** [x] lies between two values of the column [col]. *)
Definition within (x : Q) (col : list Q) : Prop :=
  exists a b, In a col /\ In b col /\ a <= x /\ x <= b.

(** [sub] occurs in [s]. *)
Definition occurs_in (sub s : string) : Prop :=
  exists pre post : string, s = (pre ++ sub ++ post)%string.

(** A season schedule with a testing event. *)
Definition schedule_2024 : list (string * list string) :=
  [("RoundNumber", ["0"; "1"; "2"]);
   ("EventName",
    ["Pre-Season Testing"; "Bahrain Grand Prix"; "Saudi Arabian Grand Prix"])]
  %string.

(** ** Sample laps *)

(** The two laps of the specification's end-to-end scenario, with session
    times added. *)
Definition lap_A : telemetry :=
  {| Distance := [0; 50; 100];
     SessionTime := Some [0; 1000000000; 2000000000]%Z;
     Speed := [200; 210; 220] |}.

Definition lap_B : telemetry :=
  {| Distance := [0; 50; 100];
     SessionTime := Some [0; 900000000; 2100000000]%Z;
     Speed := [190; 230; 215] |}.

(** The laps of the no-overlap scenario: distances [[0,100]] and
    [[200,300]]. *)
Definition lap_near : telemetry :=
  {| Distance := [0; 100]; SessionTime := None; Speed := [200; 220] |}.

Definition lap_far : telemetry :=
  {| Distance := [200; 300]; SessionTime := None; Speed := [190; 215] |}.

(** A lap whose range starts and ends later than that of [lap_A]. *)
Definition lap_C : telemetry :=
  {| Distance := [10; 60; 120];
     SessionTime := Some [500000000; 1400000000; 2600000000]%Z;
     Speed := [195; 225; 205] |}.

(** A lap with a single sample. *)
Definition lap_one : telemetry :=
  {| Distance := [50]; SessionTime := None; Speed := [200] |}.


(** A frame without rows. *)
Definition lap_empty : telemetry :=
  {| Distance := []; SessionTime := None; Speed := [] |}.

(** A raw telemetry frame as a session hands it over: more columns than the
    dashboard uses, in an order of its own. *)
Definition raw_frame : frame :=
  {| nrows := 2;
     columns :=
       [("Speed", FloatColumn [200; 210]);
        ("X", FloatColumn [1; 2]);
        ("Distance", FloatColumn [0; 50]);
        ("Status", StrColumn ["OnTrack"; "OnTrack"]);
        ("SessionTime", TimedeltaColumn [0; 1000000000]%Z)]%string |}.

(** * Properties *)

(** ** Lists and rationals *)

Lemma nth_map_in {A B} (f : A -> B) (l : list A) (i : nat) (d : A) (e : B) :
  (i < length l)%nat -> nth i (map f l) e = f (nth i l d).
Proof.
  revert i; induction l as [|a l IH]; intros [|i] H; simpl in *;
    try lia; auto.
  apply IH; lia.
Qed.

Lemma removelast_map_seq {B} (f : nat -> B) (n : nat) :
  removelast (map f (seq 0 (S n))) = map f (seq 0 n).
Proof.
  rewrite seq_S, map_app. simpl. apply removelast_last.
Qed.

Lemma inject_Z_nat_pos (n : nat) : 0 < inject_Z (Z.of_nat (S n)).
Proof. unfold Qlt; simpl; lia. Qed.

Lemma inject_Z_nat_succ (i : nat) :
  inject_Z (Z.of_nat (S i)) == inject_Z (Z.of_nat i) + 1.
Proof. rewrite Nat2Z.inj_succ. unfold Z.succ. now rewrite inject_Z_plus. Qed.

Lemma inject_Z_nat_le (i j : nat) :
  (i <= j)%nat -> inject_Z (Z.of_nat i) <= inject_Z (Z.of_nat j).
Proof. intros H. rewrite <- Zle_Qle. lia. Qed.

Lemma inject_Z_nat_lt (i j : nat) :
  (i < j)%nat -> inject_Z (Z.of_nat i) < inject_Z (Z.of_nat j).
Proof. intros H. rewrite <- Zlt_Qlt. lia. Qed.

Lemma Qlt_bool_iff (x y : Q) : Qlt_bool x y = true <-> x < y.
Proof.
  unfold Qlt_bool. rewrite negb_true_iff.
  destruct (Qle_bool y x) eqn:E.
  - apply Qle_bool_iff in E. split; [discriminate | intros H; lra].
  - split; [intros _ | reflexivity].
    apply Qnot_le_lt. intros H. apply Qle_bool_iff in H. congruence.
Qed.

Lemma Qlt_bool_false (x y : Q) : Qlt_bool x y = false <-> y <= x.
Proof.
  unfold Qlt_bool. rewrite negb_false_iff. apply Qle_bool_iff.
Qed.

Lemma Qle_bool_false (x y : Q) : Qle_bool x y = false <-> y < x.
Proof.
  rewrite <- Qlt_bool_iff. unfold Qlt_bool. now rewrite negb_true_iff.
Qed.

(** ** [np.linspace] between two finite, distinct endpoints *)

Section Linspace.

Variables a b : Q.
Variable n : nat.
Hypothesis Hab : a < b.

Let step : Q := (b - a) / inject_Z (Z.of_nat (S n)).

Lemma step_pos : 0 < step.
Proof.
  unfold step. apply Qlt_shift_div_l; [apply inject_Z_nat_pos | lra].
Qed.

Lemma linspace_finite :
  linspace (Fin a) (Fin b) (S (S n)) = map Fin (linspace_values a b n).
Proof.
  unfold linspace, linspace_values.
  replace (S (S n) - 1)%nat with (S n) by lia.
  change (0 <? S n)%nat with true. change (1 <? S (S n))%nat with true.
  cbv iota.
  assert (Hz : feqb (fdiv (fsub (Fin b) (Fin a)) (of_nat (S n))) (of_Z 0)
               = false).
  { unfold feqb, fdiv, fsub, of_nat, of_Z, fbinop, fcmp.
    destruct (Qeq_bool _ _) eqn:E; [|reflexivity].
    apply Qeq_bool_eq in E. pose proof step_pos as P. unfold step in P.
    rewrite E in P. discriminate P. }
  rewrite Hz. unfold set_last, arange.
  rewrite !map_map, removelast_map_seq, map_app, map_map.
  reflexivity.
Qed.

Lemma linspace_last_point : linspace_point a b n (S n) == b.
Proof.
  unfold linspace_point. field.
  pose proof (inject_Z_nat_pos n). lra.
Qed.

Lemma linspace_values_length : length (linspace_values a b n) = S (S n).
Proof.
  unfold linspace_values. rewrite length_app, length_map, length_seq.
  simpl. lia.
Qed.

Lemma linspace_values_nth (i : nat) :
  (i <= S n)%nat -> nth i (linspace_values a b n) 0 == linspace_point a b n i.
Proof.
  intros Hi. unfold linspace_values.
  destruct (Nat.eq_dec i (S n)) as [->|Hne].
  - rewrite app_nth2; rewrite length_map, length_seq; [|lia].
    rewrite Nat.sub_diag. simpl. symmetry. apply linspace_last_point.
  - rewrite app_nth1 by (rewrite length_map, length_seq; lia).
    rewrite (nth_map_in _ _ _ 0%nat) by (rewrite length_seq; lia).
    rewrite seq_nth by lia. reflexivity.
Qed.

Lemma linspace_point_lt (i j : nat) :
  (i < j)%nat -> linspace_point a b n i < linspace_point a b n j.
Proof.
  intros H. unfold linspace_point.
  pose proof step_pos. pose proof (inject_Z_nat_lt i j H).
  apply Qplus_lt_l. apply Qmult_lt_compat_r; assumption.
Qed.

Lemma linspace_point_succ (i : nat) :
  linspace_point a b n (S i) - linspace_point a b n i == step.
Proof.
  unfold linspace_point, step. rewrite inject_Z_nat_succ.
  set (s := (b - a) / _). ring.
Qed.

End Linspace.

(** ** [Series.min], [Series.max] and the overlap bounds *)

Lemma fold_Qmin_spec (r : list Q) (x : Q) :
  In (fold_left Qmin r x) (x :: r) /\
  Forall (fun y => fold_left Qmin r x <= y) (x :: r).
Proof.
  revert x; induction r as [|y r IH]; intros x; simpl.
  - split; [now left | constructor; [lra | constructor]].
  - destruct (IH (Qmin x y)) as [Hin Hall].
    inversion Hall as [|? ? Hhd Htl]; subst. split.
    + destruct Hin as [Hin|Hin]; [|now right; right].
      rewrite <- Hin.
      unfold Qmin, GenericMinMax.gmin. destruct (x ?= y); auto.
    + pose proof (Q.le_min_l x y). pose proof (Q.le_min_r x y).
      constructor; [lra|]. constructor; [lra | assumption].
Qed.

Lemma fold_Qmax_spec (r : list Q) (x : Q) :
  In (fold_left Qmax r x) (x :: r) /\
  Forall (fun y => y <= fold_left Qmax r x) (x :: r).
Proof.
  revert x; induction r as [|y r IH]; intros x; simpl.
  - split; [now left | constructor; [lra | constructor]].
  - destruct (IH (Qmax x y)) as [Hin Hall].
    inversion Hall as [|? ? Hhd Htl]; subst. split.
    + destruct Hin as [Hin|Hin]; [|now right; right].
      rewrite <- Hin.
      unfold Qmax, GenericMinMax.gmax. destruct (x ?= y); auto.
    + pose proof (Q.le_max_l x y). pose proof (Q.le_max_r x y).
      constructor; [lra|]. constructor; [lra | assumption].
Qed.

(** [series_min] is the least element of a non-empty column. *)
Lemma series_min_spec (col : list Q) :
  col <> [] ->
  exists m, series_min col = Fin m /\ In m col /\ Forall (fun y => m <= y) col.
Proof.
  destruct col as [|x r]; [congruence | intros _].
  exists (fold_left Qmin r x). split; [reflexivity | apply fold_Qmin_spec].
Qed.

Lemma series_max_spec (col : list Q) :
  col <> [] ->
  exists m, series_max col = Fin m /\ In m col /\ Forall (fun y => y <= m) col.
Proof.
  destruct col as [|x r]; [congruence | intros _].
  exists (fold_left Qmax r x). split; [reflexivity | apply fold_Qmax_spec].
Qed.

(** On finite arguments the builtins are the usual maximum and minimum. *)
Lemma py_max_fin (x y : Q) :
  exists m, py_max (Fin x) (Fin y) = Fin m /\ m == Qmax x y.
Proof.
  unfold py_max, fgt, flt, fcmp. destruct (Qlt_bool x y) eqn:E.
  - apply Qlt_bool_iff in E. exists y. split; [reflexivity|].
    symmetry. apply Q.max_r. lra.
  - apply Qlt_bool_false in E. exists x. split; [reflexivity|].
    symmetry. now apply Q.max_l.
Qed.

Lemma py_min_fin (x y : Q) :
  exists m, py_min (Fin x) (Fin y) = Fin m /\ m == Qmin x y.
Proof.
  unfold py_min, flt, fcmp. destruct (Qlt_bool y x) eqn:E.
  - apply Qlt_bool_iff in E. exists y. split; [reflexivity|].
    symmetry. apply Q.min_r. lra.
  - apply Qlt_bool_false in E. exists x. split; [reflexivity|].
    symmetry. now apply Q.min_l.
Qed.

(** The grid handed to the interpolation, and stored in [comp_df], is the
    one of lines 40-45. *)
Lemma compare_fastest_Distance (tel1 tel2 : telemetry) (c : comparison) :
  compare_fastest tel1 tel2 = Ok c -> comp_Distance c = dist tel1 tel2.
Proof.
  unfold compare_fastest, bind.
  destruct (np_interp _ (Distance tel1) _); [|discriminate].
  destruct (np_interp _ (Distance tel2) _); [|discriminate].
  intros H; injection H as <-. reflexivity.
Qed.

Lemma compare_fastest_Speed (tel1 tel2 : telemetry) (c : comparison) :
  compare_fastest tel1 tel2 = Ok c ->
  np_interp (dist tel1 tel2) (Distance tel1) (Speed tel1) = Ok (comp_Speed1 c)
  /\ np_interp (dist tel1 tel2) (Distance tel2) (Speed tel2)
     = Ok (comp_Speed2 c).
Proof.
  unfold compare_fastest, bind.
  destruct (np_interp _ (Distance tel1) _); [|discriminate].
  destruct (np_interp _ (Distance tel2) _); [|discriminate].
  intros H; injection H as <-. split; reflexivity.
Qed.

Lemma least_of_spec (col : list Q) (m : Q) :
  least_of col m = true ->
  exists m', series_min col = Fin m' /\ m' == m.
Proof.
  unfold least_of. intros H. apply andb_true_iff in H. destruct H as [He Ha].
  apply existsb_exists in He. destruct He as (y & Hy & Ey).
  apply Qeq_bool_eq in Ey. rewrite forallb_forall in Ha.
  assert (Hne : col <> []) by (intros ->; contradiction).
  destruct (series_min_spec col Hne) as (m' & E & Hin & Hall).
  exists m'. split; [assumption|].
  rewrite Forall_forall in Hall.
  pose proof (Hall y Hy). pose proof (Ha m' Hin) as L.
  apply Qle_bool_iff in L. apply Qle_antisym; lra.
Qed.

Lemma greatest_of_spec (col : list Q) (M : Q) :
  greatest_of col M = true ->
  exists M', series_max col = Fin M' /\ M' == M.
Proof.
  unfold greatest_of. intros H. apply andb_true_iff in H.
  destruct H as [He Ha].
  apply existsb_exists in He. destruct He as (y & Hy & Ey).
  apply Qeq_bool_eq in Ey. rewrite forallb_forall in Ha.
  assert (Hne : col <> []) by (intros ->; contradiction).
  destruct (series_max_spec col Hne) as (M' & E & Hin & Hall).
  exists M'. split; [assumption|].
  rewrite Forall_forall in Hall.
  pose proof (Hall y Hy). pose proof (Ha M' Hin) as L.
  apply Qle_bool_iff in L. apply Qle_antisym; lra.
Qed.

Lemma least_of_nonempty (col : list Q) (m : Q) :
  least_of col m = true -> (0 < length col)%nat.
Proof.
  unfold least_of. destruct col; [discriminate | simpl; lia].
Qed.

(** Lines 40-41 compute the larger of the two least distances and the
    smaller of the two greatest distances. *)
Lemma dmin_is_max_of_minima (tel1 tel2 : telemetry) (m1 m2 : Q) :
  least_of (Distance tel1) m1 = true -> least_of (Distance tel2) m2 = true ->
  exists d, dmin tel1 tel2 = Fin d /\ d == Qmax m1 m2.
Proof.
  intros H1 H2.
  destruct (least_of_spec _ _ H1) as (a & Ea & Ha).
  destruct (least_of_spec _ _ H2) as (b & Eb & Hb).
  destruct (py_max_fin a b) as (d & Ed & Hd).
  exists d. split; [unfold dmin; now rewrite Ea, Eb|].
  rewrite Hd.
  destruct (Q.max_spec a b) as [[L E]|[L E]];
    destruct (Q.max_spec m1 m2) as [[L' E']|[L' E']];
    rewrite E, E'; lra.
Qed.

Lemma dmax_is_min_of_maxima (tel1 tel2 : telemetry) (M1 M2 : Q) :
  greatest_of (Distance tel1) M1 = true ->
  greatest_of (Distance tel2) M2 = true ->
  exists d, dmax tel1 tel2 = Fin d /\ d == Qmin M1 M2.
Proof.
  intros H1 H2.
  destruct (greatest_of_spec _ _ H1) as (a & Ea & Ha).
  destruct (greatest_of_spec _ _ H2) as (b & Eb & Hb).
  destruct (py_min_fin a b) as (d & Ed & Hd).
  exists d. split; [unfold dmax; now rewrite Ea, Eb|].
  rewrite Hd.
  destruct (Q.min_spec a b) as [[L E]|[L E]];
    destruct (Q.min_spec M1 M2) as [[L' E']|[L' E']];
    rewrite E, E'; lra.
Qed.

(** C1. Let [m1], [M1] be the least and greatest distance of lap A and
    [m2], [M2] those of lap B, and let [dMin] be the larger of [m1], [m2]
    and [dMax] the smaller of [M1], [M2].  When [dMin < dMax], the grid
    built by [compare_fastest] has exactly 1200 finite values; the first is
    [dMin], the last is [dMax], consecutive values differ by the constant
    [(dMax - dMin) / 1199], and the values never decrease (they increase
    strictly). *)
Theorem grid_overlap_linspace (tel1 tel2 : telemetry) (m1 M1 m2 M2 : Q) :
  least_of (Distance tel1) m1 = true ->
  greatest_of (Distance tel1) M1 = true ->
  least_of (Distance tel2) m2 = true ->
  greatest_of (Distance tel2) M2 = true ->
  Qmax m1 m2 < Qmin M1 M2 ->
  exists g : list Q,
    dist tel1 tel2 = map Fin g /\
    (forall c, compare_fastest tel1 tel2 = Ok c -> comp_Distance c = map Fin g)
    /\ length g = 1200%nat
    /\ nth 0 g 0 == Qmax m1 m2
    /\ nth 1199 g 0 == Qmin M1 M2
    /\ (forall i, (i < 1199)%nat ->
          nth (S i) g 0 - nth i g 0 == (Qmin M1 M2 - Qmax m1 m2) / 1199)
    /\ (forall i j, (i <= j < 1200)%nat -> nth i g 0 <= nth j g 0)
    /\ (forall i j, (i < j < 1200)%nat -> nth i g 0 < nth j g 0).
Proof.
  intros L1 G1 L2 G2 Hov.
  destruct (dmin_is_max_of_minima tel1 tel2 m1 m2 L1 L2)
    as (dMin & Hmin & Emin).
  destruct (dmax_is_min_of_maxima tel1 tel2 M1 M2 G1 G2)
    as (dMax & Hmax & Emax).
  assert (Hlt : dMin < dMax) by (rewrite Emin, Emax; exact Hov).
  assert (Hg : dist tel1 tel2 = map Fin (linspace_values dMin dMax 1198)).
  { unfold dist. rewrite Hmin, Hmax.
    unfold fle, fcmp.
    replace (Qle_bool dMax dMin) with false
      by (symmetry; now apply Qle_bool_false).
    change 1200%nat with (S (S 1198)).
    now apply linspace_finite. }
  exists (linspace_values dMin dMax 1198).
  split; [exact Hg|].
  split; [intros c Hc; rewrite <- Hg; now apply compare_fastest_Distance|].
  split; [apply linspace_values_length|].
  split.
  { rewrite linspace_values_nth by lia. unfold linspace_point.
    change (inject_Z (Z.of_nat 0)) with 0. rewrite <- Emin. ring. }
  split.
  { rewrite linspace_values_nth by lia. rewrite <- Emax.
    now apply linspace_last_point. }
  split.
  { intros i Hi. rewrite !linspace_values_nth by lia.
    rewrite linspace_point_succ. rewrite <- Emin, <- Emax. reflexivity. }
  split.
  - intros i j Hij. rewrite !linspace_values_nth by lia.
    destruct (Nat.eq_dec i j) as [->|Hne]; [apply Qle_refl|].
    apply Qlt_le_weak. apply linspace_point_lt; [assumption | lia].
  - intros i j Hij. rewrite !linspace_values_nth by lia.
    apply linspace_point_lt; [assumption | lia].
Qed.

Lemma grid_overlap_linspace_witness :
  exists g : list Q,
    dist lap_A lap_C = map Fin g /\
    (forall c, compare_fastest lap_A lap_C = Ok c -> comp_Distance c = map Fin g)
    /\ length g = 1200%nat
    /\ nth 0 g 0 == Qmax 0 10
    /\ nth 1199 g 0 == Qmin 100 120
    /\ (forall i, (i < 1199)%nat ->
          nth (S i) g 0 - nth i g 0 == (Qmin 100 120 - Qmax 0 10) / 1199)
    /\ (forall i j, (i <= j < 1200)%nat -> nth i g 0 <= nth j g 0)
    /\ (forall i j, (i < j < 1200)%nat -> nth i g 0 < nth j g 0).
Proof.
  apply (grid_overlap_linspace lap_A lap_C 0 100 10 120); reflexivity.
Defined.

(** The first and the last grid value for [lap_A] against [lap_C]: the
    later start, 10, and the earlier end, 100. *)
Example grid_overlap_scenario :
  dmin lap_A lap_C = Fin 10 /\ dmax lap_A lap_C = Fin 100
  /\ dmin lap_C lap_A = Fin 10 /\ dmax lap_C lap_A = Fin 100.
Proof. repeat split; reflexivity. Qed.

(** ** Sorted columns *)

Lemma nondecreasingb_cons (x : Q) (r : list Q) :
  nondecreasingb (x :: r) = true -> nondecreasingb r = true.
Proof.
  simpl. destruct r as [|y r]; [reflexivity|].
  intros H. apply andb_true_iff in H. apply H.
Qed.

Lemma nondecreasingb_step (col : list Q) (i : nat) :
  nondecreasingb col = true -> (S i < length col)%nat ->
  nth i col 0 <= nth (S i) col 0.
Proof.
  revert i. induction col as [|x r IH]; intros i H Hi; simpl in Hi; [lia|].
  destruct i as [|i].
  - destruct r as [|y r]; simpl in Hi; [lia|].
    simpl in H. apply andb_true_iff in H. destruct H as [H _].
    now apply Qle_bool_iff in H.
  - change (nth i r 0 <= nth (S i) r 0). apply IH; [|lia].
    now apply nondecreasingb_cons in H.
Qed.

Lemma nondecreasingb_nth (col : list Q) (i j : nat) :
  nondecreasingb col = true -> (i <= j < length col)%nat ->
  nth i col 0 <= nth j col 0.
Proof.
  intros H [Hij Hj]. induction Hij as [|j Hij IH]; [apply Qle_refl|].
  apply Qle_trans with (nth j col 0); [apply IH; lia|].
  now apply nondecreasingb_step.
Qed.

Lemma increasingb_nondecreasingb (col : list Q) :
  increasingb col = true -> nondecreasingb col = true.
Proof.
  induction col as [|x r IH]; [reflexivity|].
  simpl. destruct r as [|y r]; [reflexivity|].
  intros H. apply andb_true_iff in H. destruct H as [H1 H2].
  apply andb_true_iff. split; [|now apply IH].
  apply Qlt_bool_iff in H1. apply Qle_bool_iff. lra.
Qed.

Lemma increasingb_step (col : list Q) (i : nat) :
  increasingb col = true -> (S i < length col)%nat ->
  nth i col 0 < nth (S i) col 0.
Proof.
  revert i. induction col as [|x r IH]; intros i H Hi; simpl in Hi; [lia|].
  destruct i as [|i].
  - destruct r as [|y r]; simpl in Hi; [lia|].
    simpl in H. apply andb_true_iff in H. destruct H as [H _].
    now apply Qlt_bool_iff in H.
  - change (nth i r 0 < nth (S i) r 0). apply IH; [|lia].
    simpl in H. destruct r as [|y r]; [reflexivity|].
    apply andb_true_iff in H. apply H.
Qed.


(** ** The index search of [np.interp] *)

Section Search.

Variable arr : list Q.
Variable key : Q.

Variable len : Z.
Hypothesis Hlen : len = Z.of_nat (length arr).

Hypothesis Hsorted : nondecreasingb arr = true.

Lemma at_sorted (i j : Z) :
  (0 <= i <= j)%Z -> (j < len)%Z -> at_ arr i <= at_ arr j.
Proof.
  intros Hij Hj. unfold at_. apply nondecreasingb_nth; [assumption|].
  lia.
Qed.

Lemma bracket_unique (j k : Z) : bracket arr len key j -> bracket arr len key k -> j = k.
Proof.
  intros (Hj & Hj1 & Hj2) (Hk & Hk1 & Hk2).
  destruct (Z.lt_trichotomy j k) as [H|[H|H]]; [exfalso | assumption | exfalso].
  - assert (at_ arr (j + 1) <= at_ arr k) by (apply at_sorted; lia).
    assert (key < at_ arr (j + 1)) by (apply Hj2; lia). lra.
  - assert (at_ arr (k + 1) <= at_ arr j) by (apply at_sorted; lia).
    assert (key < at_ arr (k + 1)) by (apply Hk2; lia). lra.
Qed.

Lemma linear_loop_spec (fuel : nat) (i : Z) :
  (1 <= i <= len)%Z -> (len - i <= Z.of_nat fuel)%Z ->
  at_ arr (i - 1) <= key ->
  bracket arr len key (linear_loop fuel key arr len i - 1).
Proof.
  revert i. induction fuel as [|f IH]; intros i Hi Hf Hprev; simpl.
  - assert (i = len) by lia. subst i.
    repeat split; try lia. assumption.
  - destruct (i <? len)%Z eqn:Hlt; simpl.
    + apply Z.ltb_lt in Hlt.
      destruct (Qle_bool (at_ arr i) key) eqn:Hle.
      * apply IH; try lia.
        replace (i + 1 - 1)%Z with i by lia. now apply Qle_bool_iff.
      * apply Qle_bool_false in Hle.
        repeat split; try lia; [assumption|].
        intros _. now replace (i - 1 + 1)%Z with i by lia.
    + apply Z.ltb_ge in Hlt. assert (i = len) by lia. subst i.
      repeat split; try lia. assumption.
Qed.

Lemma bisect_spec (fuel : nat) (imin imax : Z) :
  (0 <= imin <= imax)%Z -> (imax <= len)%Z ->
  (imax - imin <= Z.of_nat fuel)%Z ->
  ((0 < imin)%Z -> at_ arr (imin - 1) <= key) ->
  ((imax < len)%Z -> key < at_ arr imax) ->
  let r := bisect fuel key arr imin imax in
  (imin <= r <= imax)%Z
  /\ ((0 < r)%Z -> at_ arr (r - 1) <= key)
  /\ ((r < len)%Z -> key < at_ arr r).
Proof.
  revert imin imax.
  induction fuel as [|f IH]; intros imin imax Hi Hm Hf Hlo Hhi; simpl.
  - assert (imin = imax) by lia. subst imax.
    split; [lia | split; assumption].
  - destruct (imin <? imax)%Z eqn:Hlt.
    + apply Z.ltb_lt in Hlt.
      rewrite Z.shiftr_div_pow2 by lia. change (2 ^ 1)%Z with 2%Z.
      set (imid := (imin + (imax - imin) / 2)%Z).
      assert (Hmid : (imin <= imid < imax)%Z).
      { unfold imid. pose proof (Z.div_lt_upper_bound (imax - imin) 2
                                  (imax - imin) ltac:(lia) ltac:(lia)).
        pose proof (Z.div_pos (imax - imin) 2 ltac:(lia) ltac:(lia)). lia. }
      destruct (Qle_bool (at_ arr imid) key) eqn:Hle.
      * apply Qle_bool_iff in Hle.
        destruct (IH (imid + 1)%Z imax) as (R1 & R2 & R3);
          try lia; try assumption.
        { intros _. now replace (imid + 1 - 1)%Z with imid by lia. }
        split; [lia | split; assumption].
      * apply Qle_bool_false in Hle.
        destruct (IH imin imid) as (R1 & R2 & R3);
          try lia; try assumption.
        { intros _. assumption. }
        split; [lia | split; assumption].
    + apply Z.ltb_ge in Hlt. assert (imin = imax) by lia. subst imax.
      split; [lia | split; assumption].
Qed.

(** The bisection is entered with a sample at or below the window known not
    to exceed [key]; its result then brackets [key]. *)
Lemma bisect_bracket (fuel : nat) (imin imax : Z) :
  (0 < len)%Z ->
  (0 <= imin <= imax)%Z -> (imax <= len)%Z ->
  (imax - imin <= Z.of_nat fuel)%Z ->
  at_ arr 0 <= key ->
  ((0 < imin)%Z -> at_ arr (imin - 1) <= key) ->
  ((imax < len)%Z -> key < at_ arr imax) ->
  bracket arr len key (bisect fuel key arr imin imax - 1).
Proof.
  intros Hpos Hi Hm Hf H0 Hlo Hhi.
  destruct (bisect_spec fuel imin imax Hi Hm Hf Hlo Hhi) as (R1 & R2 & R3).
  set (r := bisect fuel key arr imin imax) in *.
  assert (Hr : (0 < r)%Z).
  { destruct (Z.eq_dec r 0) as [E|E]; [|lia].
    assert (key < at_ arr r) by (apply R3; lia). rewrite E in *. lra. }
  repeat split; try lia; [now apply R2|].
  intros H. replace (r - 1 + 1)%Z with r by lia. apply R3. lia.
Qed.

End Search.

Section SearchWithGuess.

Variable arr : list Q.
Variable key : Q.
Variable len : Z.
Hypothesis Hlen : len = Z.of_nat (length arr).
Hypothesis Hne : (1 <= len)%Z.
Hypothesis Hsorted : nondecreasingb arr = true.

(** Whatever the guess, the search answers [-1] below the first sample,
    [len] above the last one, and the bracketing index otherwise. *)
Lemma binary_search_with_guess_spec (guess : Z) :
  let j := binary_search_with_guess key arr len guess in
  (j = len /\ at_ arr (len - 1) < key)
  \/ (j = (-1)%Z /\ key < at_ arr 0)
  \/ (bracket arr len key j /\ at_ arr 0 <= key /\ key <= at_ arr (len - 1)).
Proof.
  unfold binary_search_with_guess.
  destruct (Qlt_bool (at_ arr (len - 1)) key) eqn:Hhi.
  { left. apply Qlt_bool_iff in Hhi. now split. }
  apply Qlt_bool_false in Hhi.
  destruct (Qlt_bool key (at_ arr 0)) eqn:Hlo.
  { right; left. apply Qlt_bool_iff in Hlo. now split. }
  apply Qlt_bool_false in Hlo.
  right; right. split; [|now split].
  destruct (len <=? 4)%Z eqn:Hsmall.
  { unfold linear_search. apply linear_loop_spec; try lia. exact Hlo. }
  apply Z.leb_gt in Hsmall.
  set (g1 := if (len - 3 <? guess)%Z then (len - 3)%Z else guess).
  set (g := if (g1 <? 1)%Z then 1%Z else g1).
  assert (Hg : (1 <= g <= len - 3)%Z).
  { unfold g, g1. destruct (len - 3 <? guess)%Z eqn:E1.
    - destruct (len - 3 <? 1)%Z eqn:E2; [apply Z.ltb_lt in E2|]; lia.
    - apply Z.ltb_ge in E1.
      destruct (guess <? 1)%Z eqn:E2;
        [apply Z.ltb_lt in E2 | apply Z.ltb_ge in E2]; lia. }
  clearbody g. clear g1. cbv zeta.
  destruct (Qlt_bool key (at_ arr g)) eqn:H0.
  - apply Qlt_bool_iff in H0.
    destruct (Qlt_bool key (at_ arr (g - 1))) eqn:H1.
    + apply Qlt_bool_iff in H1.
      match goal with
      | |- context [bisect _ _ _ ?lo _] => set (imin := lo)
      end.
      assert (Himin : (0 <= imin <= g - 1)%Z
                      /\ ((0 < imin)%Z -> at_ arr (imin - 1) <= key)).
      { unfold imin, LIKELY_IN_CACHE_SIZE.
        destruct (8 <? g)%Z eqn:E1; simpl.
        - apply Z.ltb_lt in E1.
          destruct (Qle_bool (at_ arr (g - 8)) key) eqn:E2.
          + apply Qle_bool_iff in E2. split; [lia | intros _].
            apply Qle_trans with (at_ arr (g - 8)); [|assumption].
            apply (at_sorted arr len Hlen Hsorted); lia.
          + split; [lia | intros; lia].
        - split; [lia | intros; lia]. }
      clearbody imin. destruct Himin as [Hr Hk].
      apply bisect_bracket; try lia; try assumption.
      intros _. assumption.
    + apply Qlt_bool_false in H1.
      repeat split; try lia; [assumption|].
      intros _. now replace (g - 1 + 1)%Z with g by lia.
  - apply Qlt_bool_false in H0.
    destruct (Qlt_bool key (at_ arr (g + 1))) eqn:H1.
    { apply Qlt_bool_iff in H1.
      repeat split; try lia; [assumption | intros _; assumption]. }
    apply Qlt_bool_false in H1.
    destruct (Qlt_bool key (at_ arr (g + 2))) eqn:H2.
    { apply Qlt_bool_iff in H2. repeat split; try lia; [assumption|].
      intros _. now replace (g + 1 + 1)%Z with (g + 2)%Z by lia. }
    apply Qlt_bool_false in H2.
    match goal with
    | |- context [bisect _ _ _ _ ?hi] => set (imax := hi)
    end.
    assert (Himax : (g + 2 <= imax <= len)%Z
                    /\ ((imax < len)%Z -> key < at_ arr imax)).
    { unfold imax, LIKELY_IN_CACHE_SIZE.
      destruct (g <? len - 8 - 1)%Z eqn:E1; simpl.
      - apply Z.ltb_lt in E1.
        destruct (Qlt_bool key (at_ arr (g + 8))) eqn:E2.
        + apply Qlt_bool_iff in E2. split; [lia | intros _; assumption].
        + split; [lia | intros; lia].
      - split; [lia | intros; lia]. }
    clearbody imax. destruct Himax as [Hr Hk].
    apply bisect_bracket; try lia; try assumption.
    intros _. now replace (g + 2 - 1)%Z with (g + 1)%Z by lia.
Qed.

End SearchWithGuess.

(** ** [np.interp] computes the clamped piecewise-linear interpolant *)

Section Interp.

Variables xp fp : list Q.
Hypothesis Hsorted : nondecreasingb xp = true.

Let n : nat := length xp.
Let lenxp : Z := Z.of_nat (length xp).

Lemma at_of_nat (arr : list Q) (k : nat) : at_ arr (Z.of_nat k) = nth k arr 0.
Proof. unfold at_. now rewrite Nat2Z.id. Qed.

Lemma bracket_of_nat (x : Q) (k : nat) :
  (k < n)%nat -> nth k xp 0 <= x ->
  ((S k < n)%nat -> x < nth (S k) xp 0) ->
  bracket xp lenxp x (Z.of_nat k).
Proof.
  intros Hk Hle Hlt. unfold bracket, lenxp. fold n.
  rewrite at_of_nat. split; [lia|]. split; [assumption|].
  intros H. replace (Z.of_nat k + 1)%Z with (Z.of_nat (S k)) by lia.
  rewrite at_of_nat. apply Hlt. lia.
Qed.

Lemma interp_point_spec (j : Z) (x : Q) :
  (2 <= n)%nat ->
  interp_spec xp fp x
    (snd (interp_point xp fp lenxp (at_ fp 0) (at_ fp (lenxp - 1)) j x)).
Proof.
  intros Hn.
  assert (Hlen : lenxp = Z.of_nat (length xp)) by reflexivity.
  assert (Hlast : Z.to_nat (lenxp - 1) = (n - 1)%nat) by (unfold lenxp, n; lia).
  assert (Hends : nth 0 xp 0 <= nth (n - 1) xp 0).
  { apply nondecreasingb_nth; [assumption | lia]. }
  assert (Hup : forall k, (k < n)%nat -> nth k xp 0 <= nth (n - 1) xp 0).
  { intros k Hk. apply nondecreasingb_nth; [assumption | lia]. }
  assert (Hdown : forall k, (k < n)%nat -> nth 0 xp 0 <= nth k xp 0).
  { intros k Hk. apply nondecreasingb_nth; [assumption | lia]. }
  unfold interp_point, interp_spec. cbv zeta. unfold n in *.
  destruct (binary_search_with_guess_spec xp x lenxp Hlen
              ltac:(unfold lenxp; lia) Hsorted j)
    as [[Ej Hx] | [[Ej Hx] | [Hb [Hx0 Hx1]]]];
    set (j' := binary_search_with_guess x xp lenxp j) in *.
  - (* above the last sample *)
    unfold at_ in Hx. rewrite Hlast in Hx.
    replace (j' =? -1)%Z with false by (symmetry; lia).
    replace (j' =? lenxp)%Z with true by (symmetry; lia).
    cbn [snd]. unfold at_. rewrite Hlast.
    repeat split.
    + intros H. exfalso; lra.
    + intros k Hk He _. specialize (Hup k Hk). exfalso; lra.
    + intros k Hk H1 H2. specialize (Hup (S k) Hk). exfalso; lra.
  - (* below the first sample *)
    change (at_ xp 0) with (nth 0 xp 0) in Hx.
    replace (j' =? -1)%Z with true by (symmetry; lia).
    cbn [snd]. change (at_ fp 0) with (nth 0 fp 0).
    repeat split.
    + intros H. exfalso; lra.
    + intros k Hk He _. specialize (Hdown k Hk). exfalso; lra.
    + intros k Hk H1 H2. specialize (Hdown k ltac:(lia)). exfalso; lra.
  - (* inside: [j'] brackets [x] *)
    change (at_ xp 0) with (nth 0 xp 0) in Hx0.
    unfold at_ in Hx1. rewrite Hlast in Hx1.
    pose proof Hb as (Hr & Hle & Hnext).
    replace (j' =? -1)%Z with false by (symmetry; lia).
    replace (j' =? lenxp)%Z with false by (symmetry; lia).
    assert (Huniq : forall k, (k < n)%nat -> nth k xp 0 <= x ->
                      ((S k < n)%nat -> x < nth (S k) xp 0) ->
                      j' = Z.of_nat k).
    { intros k Hk H1 H2.
      apply (bracket_unique xp x lenxp Hlen Hsorted); [assumption|].
      now apply bracket_of_nat. }
    destruct (j' =? lenxp - 1)%Z eqn:Elast; cbn [snd].
    + apply Z.eqb_eq in Elast.
      split; [intros H; exfalso; lra|]. split; [intros H; exfalso; lra|]. split.
      * intros k Hk He Hn'. rewrite (Huniq k Hk ltac:(lra) Hn').
        apply at_of_nat.
      * intros k Hk H1 H2.
        pose proof (Huniq k ltac:(lia) ltac:(lra) ltac:(intros _; exact H2)).
        unfold n in *; lia.
    + apply Z.eqb_neq in Elast.
      destruct (Qeq_bool (at_ xp j') x) eqn:Eeq; cbn [snd].
      * apply Qeq_bool_eq in Eeq.
        split; [intros H; exfalso; lra|]. split; [intros H; exfalso; lra|]. split.
        -- intros k Hk He Hn'. rewrite (Huniq k Hk ltac:(lra) Hn').
           apply at_of_nat.
        -- intros k Hk H1 H2.
           pose proof (Huniq k ltac:(lia) ltac:(lra)
                         ltac:(intros _; exact H2)) as E.
           rewrite E, at_of_nat in Eeq. exfalso; lra.
      * apply Qeq_bool_neq in Eeq.
        split; [intros H; exfalso; lra|]. split; [intros H; exfalso; lra|]. split.
        -- intros k Hk He Hn'. exfalso. apply Eeq.
           rewrite (Huniq k Hk ltac:(lra) Hn'), at_of_nat. exact He.
        -- intros k Hk H1 H2.
           pose proof (Huniq k ltac:(lia) ltac:(lra)
                         ltac:(intros _; exact H2)) as E.
           rewrite E.
           replace (Z.of_nat k + 1)%Z with (Z.of_nat (S k)) by lia.
           rewrite !at_of_nat. field. lra.
Qed.

End Interp.

Lemma interp_loop_length (dx dy : list Q) (lenxp : Z) (lval rval : Q)
    (dz : list pyfloat) (j : Z) :
  length (interp_loop dx dy lenxp lval rval j dz) = length dz.
Proof.
  revert j; induction dz as [|[x|] r IH]; intros j; simpl; auto.
  destruct (interp_point dx dy lenxp lval rval j x) as [j' v]. simpl. auto.
Qed.

Lemma interp_loop_nth (xp fp : list Q) (g : list Q) :
  nondecreasingb xp = true -> (2 <= length xp)%nat ->
  forall (j : Z) (i : nat), (i < length g)%nat ->
  exists v,
    nth i (interp_loop xp fp (Z.of_nat (length xp)) (at_ fp 0)
             (at_ fp (Z.of_nat (length xp) - 1)) j (map Fin g)) NaN = Fin v
    /\ interp_spec xp fp (nth i g 0) v.
Proof.
  intros Hs Hn. induction g as [|x r IH]; intros j i Hi; simpl in Hi; [lia|].
  simpl.
  pose proof (interp_point_spec xp fp Hs j x Hn) as Hp.
  destruct (interp_point xp fp _ _ _ j x) as [j' v]. simpl in Hp.
  destruct i as [|i].
  - exists v. split; [reflexivity | assumption].
  - apply IH. lia.
Qed.

Lemma np_interp_empty (x : list pyfloat) (fp : list Q) :
  np_interp x [] fp = Raise (ValueError "array of sample points is empty").
Proof. reflexivity. Qed.

(** Non-empty samples with as many values as positions: no exception, one
    output value per query point. *)
Lemma np_interp_ok (x : list pyfloat) (xp fp : list Q) :
  xp <> [] -> length fp = length xp ->
  exists out, np_interp x xp fp = Ok out /\ length out = length x.
Proof.
  intros Hne Hlen. unfold np_interp.
  destruct xp as [|x0 xr]; [congruence|].
  replace (Z.of_nat (length (x0 :: xr)) =? 0)%Z with false
    by (symmetry; apply Z.eqb_neq; simpl length; lia).
  rewrite Hlen, Z.eqb_refl. cbn [negb].
  destruct (Z.of_nat (length (x0 :: xr)) =? 1)%Z.
  - eexists. split; [reflexivity | apply length_map].
  - eexists. split; [reflexivity | apply interp_loop_length].
Qed.

(** On a sorted column of sample positions, every output value is the
    clamped piecewise-linear interpolant at its (finite) query point. *)
Lemma np_interp_spec (g xp fp : list Q) :
  xp <> [] -> length fp = length xp -> nondecreasingb xp = true ->
  exists out,
    np_interp (map Fin g) xp fp = Ok out
    /\ length out = length g
    /\ forall i, (i < length g)%nat ->
         exists v, nth i out NaN = Fin v /\ interp_spec xp fp (nth i g 0) v.
Proof.
  intros Hne Hlen Hs. unfold np_interp.
  destruct xp as [|x0 xr]; [congruence|].
  replace (Z.of_nat (length (x0 :: xr)) =? 0)%Z with false
    by (symmetry; apply Z.eqb_neq; simpl length; lia).
  rewrite Hlen, Z.eqb_refl. cbn [negb].
  destruct (Z.of_nat (length (x0 :: xr)) =? 1)%Z eqn:E1.
  - apply Z.eqb_eq in E1. destruct xr; [|simpl length in E1; lia].
    destruct fp as [|f0 [|? ?]]; try discriminate Hlen.
    eexists. split; [reflexivity|].
    split; [now rewrite !length_map|].
    intros i Hi. exists f0. split.
    + rewrite map_map.
      rewrite (nth_map_in _ _ _ 0) by assumption.
      change (at_ [f0] (Z.of_nat (length [x0]) - 1)) with f0.
      change (at_ [f0] 0) with f0.
      destruct (flt _ _); [reflexivity|]. destruct (fgt _ _); reflexivity.
    + unfold interp_spec. simpl length. cbv zeta. repeat split.
      * intros k Hk _ _. assert (k = 0)%nat by lia. now subst.
      * intros k Hk. lia.
  - apply Z.eqb_neq in E1. eexists. split; [reflexivity|].
    split; [rewrite interp_loop_length; apply length_map|].
    intros i Hi. apply interp_loop_nth; try assumption.
    simpl length in *. lia.
Qed.

(** ** Minimum and maximum of a sorted column *)

Lemma fold_Qmin_head (r : list Q) (x : Q) :
  Forall (fun y => x <= y) r -> fold_left Qmin r x = x.
Proof.
  revert x. induction r as [|y r IH]; intros x H; simpl; [reflexivity|].
  inversion H as [|? ? Hy Hr]; subst.
  assert (E : Qmin x y = x).
  { unfold Qmin, GenericMinMax.gmin. destruct (x ?= y) eqn:C; auto.
    apply Qgt_alt in C. lra. }
  rewrite E. now apply IH.
Qed.

Lemma series_min_sorted (col : list Q) :
  nondecreasingb col = true -> col <> [] ->
  series_min col = Fin (nth 0 col 0).
Proof.
  intros Hs Hne. destruct col as [|x r]; [congruence|].
  simpl. f_equal. apply fold_Qmin_head.
  apply Forall_forall. intros y Hy.
  destruct (In_nth r y 0 Hy) as (i & Hi & <-).
  apply (nondecreasingb_nth (x :: r) 0 (S i) Hs). simpl. lia.
Qed.

Lemma series_max_sorted (col : list Q) :
  nondecreasingb col = true -> col <> [] ->
  exists M, series_max col = Fin M /\ M == nth (length col - 1) col 0.
Proof.
  intros Hs Hne.
  destruct (series_max_spec col Hne) as (M & E & Hin & Hall).
  exists M. split; [assumption|].
  assert (Hl : (length col - 1 < length col)%nat).
  { destruct col; [congruence | simpl; lia]. }
  apply Qle_antisym.
  - destruct (In_nth col M 0 Hin) as (i & Hi & <-).
    apply nondecreasingb_nth; [assumption | lia].
  - rewrite Forall_forall in Hall. apply Hall. now apply nth_In.
Qed.

Lemma interp_spec_clamps (xp fp : list Q) (x v : Q) :
  nondecreasingb xp = true -> xp <> [] ->
  interp_spec xp fp x v -> clamps xp fp x v.
Proof.
  intros Hs Hne (H1 & H2 & _). split.
  - rewrite (series_min_sorted xp Hs Hne). unfold flt, fcmp.
    intros H. apply Qlt_bool_iff in H. now apply H1.
  - destruct (series_max_sorted xp Hs Hne) as (M & -> & EM).
    unfold fgt, flt, fcmp. intros H. apply Qlt_bool_iff in H.
    apply H2. lra.
Qed.

Lemma np_interp_interpolated (g xp fp : list Q) :
  xp <> [] -> length fp = length xp -> nondecreasingb xp = true ->
  exists out,
    np_interp (map Fin g) xp fp = Ok out /\ interpolated xp fp g out.
Proof.
  intros Hne Hlen Hs.
  destruct (np_interp_spec g xp fp Hne Hlen Hs) as (out & E & L & P).
  exists out. split; [assumption|]. split; [assumption|].
  intros i Hi. destruct (P i Hi) as (v & Ev & Sv).
  exists v. split; [assumption|]. split; [assumption|].
  now apply interp_spec_clamps.
Qed.

(** ** The grid of [compare_fastest] *)

Lemma nonempty_length {A} (l : list A) : (0 < length l)%nat -> l <> [].
Proof. destruct l; simpl; [lia | discriminate]. Qed.

Lemma frame_ok_Speed (tel : telemetry) :
  frame_ok tel = true -> length (Speed tel) = length (Distance tel).
Proof.
  unfold frame_ok. intros H. apply andb_true_iff in H.
  destruct H as [H _]. now apply Nat.eqb_eq in H.
Qed.

(** With two non-empty laps the bounds are finite and the grid is either
    lap A's distance column or the 1200 values of [linspace]. *)
Lemma grid_cases (tel1 tel2 : telemetry) :
  (0 < length (Distance tel1))%nat -> (0 < length (Distance tel2))%nat ->
  exists dMin dMax,
    dmin tel1 tel2 = Fin dMin /\ dmax tel1 tel2 = Fin dMax
    /\ ((dMax <= dMin /\ dist tel1 tel2 = map Fin (Distance tel1))
        \/ (dMin < dMax
            /\ dist tel1 tel2 = map Fin (linspace_values dMin dMax 1198))).
Proof.
  intros H1 H2. apply nonempty_length in H1, H2.
  destruct (series_min_spec _ H1) as (m1 & Em1 & _).
  destruct (series_min_spec _ H2) as (m2 & Em2 & _).
  destruct (series_max_spec _ H1) as (M1 & EM1 & _).
  destruct (series_max_spec _ H2) as (M2 & EM2 & _).
  destruct (py_max_fin m1 m2) as (dMin & Emin & _).
  destruct (py_min_fin M1 M2) as (dMax & Emax & _).
  exists dMin, dMax.
  assert (Hmin : dmin tel1 tel2 = Fin dMin)
    by (unfold dmin; now rewrite Em1, Em2).
  assert (Hmax : dmax tel1 tel2 = Fin dMax)
    by (unfold dmax; now rewrite EM1, EM2).
  split; [assumption|]. split; [assumption|].
  unfold dist. rewrite Hmin, Hmax. unfold fle, fcmp.
  destruct (Qle_bool dMax dMin) eqn:E.
  - left. apply Qle_bool_iff in E. now split.
  - right. apply Qle_bool_false in E. split; [assumption|].
    change 1200%nat with (S (S 1198)). now apply linspace_finite.
Qed.

Lemma grid_finite (tel1 tel2 : telemetry) :
  (0 < length (Distance tel1))%nat -> (0 < length (Distance tel2))%nat ->
  exists g, dist tel1 tel2 = map Fin g.
Proof.
  intros H1 H2.
  destruct (grid_cases tel1 tel2 H1 H2) as (a & b & _ & _ & [[_ E]|[_ E]]);
    eauto.
Qed.

(** ** The comparison *)

(** C2, as the code has it.  Let [m1], [M1] be the least and greatest
    distance of lap A and [m2], [M2] those of lap B (so both laps have
    samples).  When the ranges do not overlap, that is when the smaller of
    [M1], [M2] does not exceed the larger of [m1], [m2], and lap B's
    distances never decrease, [compare_fastest] raises nothing: the grid is
    lap A's distance column as it stands, there is one speed of lap A per
    grid value, and lap B's speed column holds the clamped linear
    interpolant of lap B's samples at every grid value.  If lap A's
    distances never decrease either, the same holds of its speed column. *)
Theorem no_overlap_fallback (tel1 tel2 : telemetry) (m1 M1 m2 M2 : Q) :
  frame_ok tel1 = true -> frame_ok tel2 = true ->
  least_of (Distance tel1) m1 = true ->
  greatest_of (Distance tel1) M1 = true ->
  least_of (Distance tel2) m2 = true ->
  greatest_of (Distance tel2) M2 = true ->
  Qmin M1 M2 <= Qmax m1 m2 ->
  nondecreasingb (Distance tel2) = true ->
  exists s1 s2,
    compare_fastest tel1 tel2
    = Ok {| comp_Distance := to_numpy (Distance tel1);
            comp_Speed1 := s1;
            comp_Speed2 := s2 |}
    /\ length s1 = length (Distance tel1)
    /\ interpolated (Distance tel2) (Speed tel2) (Distance tel1) s2
    /\ (nondecreasingb (Distance tel1) = true ->
        interpolated (Distance tel1) (Speed tel1) (Distance tel1) s1).
Proof.
  intros F1 F2 L1 G1 L2 G2 Hno S2.
  destruct (dmin_is_max_of_minima tel1 tel2 m1 m2 L1 L2)
    as (dMin & Hmin & Emin).
  destruct (dmax_is_min_of_maxima tel1 tel2 M1 M2 G1 G2)
    as (dMax & Hmax & Emax).
  pose proof (nonempty_length _ (least_of_nonempty _ _ L1)) as N1.
  pose proof (nonempty_length _ (least_of_nonempty _ _ L2)) as N2.
  assert (Hg : dist tel1 tel2 = to_numpy (Distance tel1)).
  { unfold dist. rewrite Hmin, Hmax. unfold fle, fcmp.
    replace (Qle_bool dMax dMin) with true; [reflexivity|].
    symmetry. apply Qle_bool_iff. rewrite Emin, Emax. exact Hno. }
  destruct (np_interp_ok (to_numpy (Distance tel1)) (Distance tel1)
              (Speed tel1) N1 (frame_ok_Speed _ F1)) as (s1 & E1 & L1').
  destruct (np_interp_interpolated (Distance tel1) (Distance tel2)
              (Speed tel2) N2 (frame_ok_Speed _ F2) S2) as (s2 & E2 & I2).
  exists s1, s2. unfold compare_fastest. rewrite Hg.
  unfold to_numpy in *. rewrite E1, E2. rewrite length_map in L1'. simpl.
  split; [reflexivity|]. split; [exact L1'|]. split; [exact I2|].
  intros S1.
  destruct (np_interp_interpolated (Distance tel1) (Distance tel1)
              (Speed tel1) N1 (frame_ok_Speed _ F1) S1) as (s1' & E1' & I1).
  assert (s1' = s1) by congruence. now subst.
Qed.

Lemma no_overlap_fallback_witness :
  exists s1 s2,
    compare_fastest lap_near lap_far
    = Ok {| comp_Distance := to_numpy (Distance lap_near);
            comp_Speed1 := s1;
            comp_Speed2 := s2 |}
    /\ length s1 = length (Distance lap_near)
    /\ interpolated (Distance lap_far) (Speed lap_far) (Distance lap_near) s2
    /\ (nondecreasingb (Distance lap_near) = true ->
        interpolated (Distance lap_near) (Speed lap_near)
          (Distance lap_near) s1).
Proof.
  apply (no_overlap_fallback lap_near lap_far 0 100 200 300);
    [reflexivity | reflexivity | reflexivity | reflexivity | reflexivity
     | reflexivity | unfold Qle; simpl; lia | reflexivity].
Defined.

(** C2, as stated, fails when lap B has no samples: for a lap A with the
    single distance 50 the test [dmax <= dmin] holds (50 <= 50, the
    missing minimum and maximum of lap B being skipped by [max] and
    [min]), the grid is lap A's distance column, and the interpolation of
    lap B raises. *)
Lemma no_overlap_empty_lap_raises :
  dmin lap_one lap_empty = Fin 50
  /\ dmax lap_one lap_empty = Fin 50
  /\ fle (dmax lap_one lap_empty) (dmin lap_one lap_empty) = true
  /\ dist lap_one lap_empty = to_numpy (Distance lap_one)
  /\ compare_fastest lap_one lap_empty
     = Raise (ValueError "array of sample points is empty").
Proof. repeat split; reflexivity. Qed.

(** The scenario of the specification: distances [[0,100]] against
    [[200,300]] give the grid [[0,100]]; lap B is clamped to its first
    speed. *)
Example no_overlap_scenario :
  compare_fastest lap_near lap_far
  = Ok {| comp_Distance := [Fin 0; Fin 100];
          comp_Speed1 := [Fin 200; Fin 220];
          comp_Speed2 := [Fin 190; Fin 190] |}.
Proof. reflexivity. Qed.

(** C3. For two non-empty laps with non-decreasing distances,
    [compare_fastest] returns a comparison whose distance column is the
    shared grid of lines 40-45, lap A's distance column or 1200 finite
    values, and whose two speed columns hold, at every grid point, the
    clamped linear interpolant of the lap's (distance, speed) samples: the
    weighted value of the two neighbouring speeds strictly between two
    consecutive sample distances, the first speed below the lap's minimum
    distance and the last speed above its maximum distance. *)
Theorem speeds_interpolated (tel1 tel2 : telemetry) :
  frame_ok tel1 = true -> frame_ok tel2 = true ->
  (0 < length (Distance tel1))%nat -> (0 < length (Distance tel2))%nat ->
  nondecreasingb (Distance tel1) = true ->
  nondecreasingb (Distance tel2) = true ->
  exists c g,
    compare_fastest tel1 tel2 = Ok c
    /\ comp_Distance c = dist tel1 tel2
    /\ comp_Distance c = map Fin g
    /\ (g = Distance tel1 \/ length g = 1200%nat)
    /\ interpolated (Distance tel1) (Speed tel1) g (comp_Speed1 c)
    /\ interpolated (Distance tel2) (Speed tel2) g (comp_Speed2 c).
Proof.
  intros F1 F2 N1 N2 S1 S2.
  assert (Hgrid : exists g, dist tel1 tel2 = map Fin g
                            /\ (g = Distance tel1 \/ length g = 1200%nat)).
  { destruct (grid_cases tel1 tel2 N1 N2)
      as (a & b & _ & _ & [[_ E]|[_ E]]).
    - exists (Distance tel1). split; [assumption | now left].
    - exists (linspace_values a b 1198). split; [assumption|].
      right. apply linspace_values_length. }
  destruct Hgrid as (g & Hg & Hcase).
  destruct (np_interp_interpolated g (Distance tel1) (Speed tel1)
              (nonempty_length _ N1) (frame_ok_Speed _ F1) S1)
    as (s1 & E1 & I1).
  destruct (np_interp_interpolated g (Distance tel2) (Speed tel2)
              (nonempty_length _ N2) (frame_ok_Speed _ F2) S2)
    as (s2 & E2 & I2).
  exists {| comp_Distance := map Fin g; comp_Speed1 := s1;
            comp_Speed2 := s2 |}, g.
  unfold compare_fastest. rewrite Hg, E1, E2. simpl.
  repeat split; try assumption; try apply I1; try apply I2.
Qed.

Lemma speeds_interpolated_witness :
  exists c g,
    compare_fastest lap_A lap_C = Ok c
    /\ comp_Distance c = dist lap_A lap_C
    /\ comp_Distance c = map Fin g
    /\ (g = Distance lap_A \/ length g = 1200%nat)
    /\ interpolated (Distance lap_A) (Speed lap_A) g (comp_Speed1 c)
    /\ interpolated (Distance lap_C) (Speed lap_C) g (comp_Speed2 c).
Proof.
  apply (speeds_interpolated lap_A lap_C);
    [reflexivity | reflexivity | simpl; lia | simpl; lia
     | reflexivity | reflexivity].
Defined.

(** The end-to-end scenario: on the grid [[0, 50, 100]] the two laps give
    back their own speeds. *)
Example end_to_end_scenario :
  np_interp [Fin 0; Fin 50; Fin 100] (Distance lap_A) (Speed lap_A)
  = Ok [Fin 200; Fin 210; Fin 220]
  /\ np_interp [Fin 0; Fin 50; Fin 100] (Distance lap_B) (Speed lap_B)
     = Ok [Fin 190; Fin 230; Fin 215].
Proof. split; reflexivity. Qed.

(** C7, as the code has it.  When a lap has no samples, [compare_fastest]
    returns no comparison: it raises the [ValueError] of [np.interp] for an
    empty array of sample points.  The error comes from the interpolation
    of the empty lap, on the grid already built; when only lap B is empty,
    lap A has been interpolated before. *)
Theorem empty_lap_raises (tel1 tel2 : telemetry) :
  frame_ok tel1 = true ->
  length (Distance tel1) = 0%nat \/ length (Distance tel2) = 0%nat ->
  let e := ValueError "array of sample points is empty" in
  compare_fastest tel1 tel2 = Raise e
  /\ (length (Distance tel1) = 0%nat ->
      np_interp (dist tel1 tel2) (Distance tel1) (Speed tel1) = Raise e)
  /\ ((0 < length (Distance tel1))%nat ->
      (exists s1,
         np_interp (dist tel1 tel2) (Distance tel1) (Speed tel1) = Ok s1)
      /\ np_interp (dist tel1 tel2) (Distance tel2) (Speed tel2) = Raise e).
Proof.
  intros F1 H e.
  assert (R1 : length (Distance tel1) = 0%nat ->
               np_interp (dist tel1 tel2) (Distance tel1) (Speed tel1)
               = Raise e).
  { intros E. apply length_zero_iff_nil in E. rewrite E. reflexivity. }
  assert (R2 : (0 < length (Distance tel1))%nat ->
               length (Distance tel2) = 0%nat ->
               (exists s1,
                  np_interp (dist tel1 tel2) (Distance tel1) (Speed tel1)
                  = Ok s1)
               /\ np_interp (dist tel1 tel2) (Distance tel2) (Speed tel2)
                  = Raise e).
  { intros N1 E. apply length_zero_iff_nil in E. rewrite E. split.
    - destruct (np_interp_ok (dist tel1 tel2) (Distance tel1) (Speed tel1)
                  (nonempty_length _ N1) (frame_ok_Speed _ F1))
        as (s1 & E1 & _).
      eauto.
    - reflexivity. }
  split; [|split].
  - unfold compare_fastest.
    destruct (Nat.eq_dec (length (Distance tel1)) 0) as [E|E].
    + now rewrite (R1 E).
    + destruct H as [H|H]; [contradiction|].
      destruct (R2 ltac:(lia) H) as [[s1 E1] E2].
      rewrite E1. simpl. now rewrite E2.
  - exact R1.
  - intros N1. destruct H as [H|H]; [lia|]. now apply R2.
Qed.

Lemma empty_lap_raises_witness :
  let e := ValueError "array of sample points is empty" in
  compare_fastest lap_A lap_empty = Raise e
  /\ (length (Distance lap_A) = 0%nat ->
      np_interp (dist lap_A lap_empty) (Distance lap_A) (Speed lap_A)
      = Raise e)
  /\ ((0 < length (Distance lap_A))%nat ->
      (exists s1,
         np_interp (dist lap_A lap_empty) (Distance lap_A) (Speed lap_A)
         = Ok s1)
      /\ np_interp (dist lap_A lap_empty) (Distance lap_empty)
           (Speed lap_empty) = Raise e).
Proof.
  apply (empty_lap_raises lap_A lap_empty); [reflexivity | right; reflexivity].
Defined.

(** C7, as stated, fails: with lap B empty, the 1200-point grid is built and
    lap A is interpolated on it before anything is raised, and what is
    raised is the error of the second [np.interp] call. *)
Lemma empty_lap_fails_late :
  length (dist lap_A lap_empty) = 1200%nat
  /\ (exists s1,
        np_interp (dist lap_A lap_empty) (Distance lap_A) (Speed lap_A)
        = Ok s1
        /\ length s1 = 1200%nat)
  /\ np_interp (dist lap_A lap_empty) (Distance lap_empty) (Speed lap_empty)
     = Raise (ValueError "array of sample points is empty")
  /\ compare_fastest lap_A lap_empty
     = Raise (ValueError "array of sample points is empty").
Proof.
  assert (L : length (dist lap_A lap_empty) = 1200%nat) by (vm_compute; reflexivity).
  split; [exact L|]. split.
  - destruct (np_interp_ok (dist lap_A lap_empty) (Distance lap_A)
                (Speed lap_A) ltac:(discriminate) eq_refl) as (s1 & E & Ls).
    exists s1. split; [assumption | congruence].
  - split; [reflexivity|].
    unfold compare_fastest.
    destruct (np_interp_ok (dist lap_A lap_empty) (Distance lap_A)
                (Speed lap_A) ltac:(discriminate) eq_refl) as (s1 & E & _).
    rewrite E. reflexivity.
Qed.

(** ** Interpolating a lap on its own distances *)





(** ** The delta-time curve *)

Lemma arr_sub_length (t1 t2 : list pyfloat) :
  length t1 = length t2 -> length (arr_sub t1 t2) = length t1.
Proof.
  revert t2. induction t1 as [|a r IH]; intros [|b r2] H; simpl in *;
    try discriminate; auto.
Qed.

Lemma arr_sub_nth (t1 t2 : list pyfloat) (i : nat) (a b : Q) :
  nth i t1 NaN = Fin a -> nth i t2 NaN = Fin b ->
  nth i (arr_sub t1 t2) NaN = Fin (a - b).
Proof.
  revert t2 i. induction t1 as [|x r IH]; intros t2 i H1 H2.
  - destruct i; discriminate H1.
  - destruct t2 as [|y r2]; [destruct i; discriminate H2|].
    destruct i as [|i]; simpl in *.
    + now rewrite H1, H2.
    + now apply IH.
Qed.

Lemma frame_ok_SessionTime (tel : telemetry) (st : list Z) :
  frame_ok tel = true -> SessionTime tel = Some st ->
  length (dt_total_seconds st) = length (Distance tel).
Proof.
  unfold frame_ok. intros H E. rewrite E in H. apply andb_true_iff in H.
  destruct H as [_ H]. apply Nat.eqb_eq in H.
  unfold dt_total_seconds. now rewrite length_map.
Qed.

Lemma dt_total_seconds_in_seconds (st : list Z) :
  in_seconds st (dt_total_seconds st).
Proof.
  unfold in_seconds, dt_total_seconds. split; [apply length_map|].
  intros k Hk. rewrite (nth_map_in _ _ _ 0%Z) by assumption.
  unfold Qeq, Qmult, inject_Z. cbn [Qnum Qden]. rewrite Pos2Z.inj_mul. ring.
Qed.

(** C4. For two non-empty laps with non-decreasing distances the comparison
    succeeds on the shared grid of lines 40-45 and, when both frames carry
    [SessionTime], the delta-time curve is present: the two session times,
    converted from nanoseconds to seconds, are interpolated on that grid
    by the same clamped linear interpolation, and the curve is their
    difference, lap A minus lap B, at every grid point, positive exactly
    where lap A's interpolated time is the larger one.  When a frame lacks
    the column there is no curve. *)
Theorem delta_time_curve (tel1 tel2 : telemetry) :
  frame_ok tel1 = true -> frame_ok tel2 = true ->
  (0 < length (Distance tel1))%nat -> (0 < length (Distance tel2))%nat ->
  nondecreasingb (Distance tel1) = true ->
  nondecreasingb (Distance tel2) = true ->
  exists c g,
    compare_fastest tel1 tel2 = Ok c
    /\ comp_Distance c = dist tel1 tel2
    /\ comp_Distance c = map Fin g
    /\ (g = Distance tel1 \/ length g = 1200%nat)
    /\ delta_curve_spec (delta_time tel1 tel2 c) tel1 tel2 c g.
Proof.
  intros F1 F2 N1 N2 S1 S2.
  assert (Hgrid : exists g, dist tel1 tel2 = map Fin g
                            /\ (g = Distance tel1 \/ length g = 1200%nat)).
  { destruct (grid_cases tel1 tel2 N1 N2)
      as (a & b & _ & _ & [[_ E]|[_ E]]).
    - exists (Distance tel1). split; [assumption | now left].
    - exists (linspace_values a b 1198). split; [assumption|].
      right. apply linspace_values_length. }
  destruct Hgrid as (g & Hg & Hcase).
  destruct (np_interp_ok (map Fin g) (Distance tel1) (Speed tel1)
              (nonempty_length _ N1) (frame_ok_Speed _ F1)) as (s1 & E1 & _).
  destruct (np_interp_ok (map Fin g) (Distance tel2) (Speed tel2)
              (nonempty_length _ N2) (frame_ok_Speed _ F2)) as (s2 & E2 & _).
  exists {| comp_Distance := map Fin g; comp_Speed1 := s1;
            comp_Speed2 := s2 |}, g.
  split; [unfold compare_fastest; now rewrite Hg, E1, E2|].
  split; [now rewrite Hg|].
  split; [reflexivity|]. split; [exact Hcase|].
  unfold delta_curve_spec, delta_time.
  destruct (SessionTime tel1) as [st1|] eqn:T1; [|reflexivity].
  destruct (SessionTime tel2) as [st2|] eqn:T2; [|reflexivity].
  cbn [comp_Distance].
  destruct (np_interp_interpolated g (Distance tel1) (dt_total_seconds st1)
              (nonempty_length _ N1) (frame_ok_SessionTime _ _ F1 T1) S1)
    as (t1 & Et1 & I1).
  destruct (np_interp_interpolated g (Distance tel2) (dt_total_seconds st2)
              (nonempty_length _ N2) (frame_ok_SessionTime _ _ F2 T2) S2)
    as (t2 & Et2 & I2).
  exists (dt_total_seconds st1), (dt_total_seconds st2), t1, t2,
         (arr_sub t1 t2).
  rewrite Et1, Et2. simpl.
  split; [apply dt_total_seconds_in_seconds|].
  split; [apply dt_total_seconds_in_seconds|].
  split; [exact I1|]. split; [exact I2|]. split; [reflexivity|].
  split.
  - destruct I1 as [L1 _], I2 as [L2 _].
    rewrite arr_sub_length; congruence.
  - intros i Hi.
    destruct I1 as [_ P1], I2 as [_ P2].
    destruct (P1 i Hi) as (a & Ea & _). destruct (P2 i Hi) as (b & Eb & _).
    exists a, b. repeat split; try assumption.
    + now apply arr_sub_nth.
    + intros H. lra.
    + intros H. lra.
Qed.

Lemma delta_time_curve_witness :
  exists c g,
    compare_fastest lap_A lap_C = Ok c
    /\ comp_Distance c = dist lap_A lap_C
    /\ comp_Distance c = map Fin g
    /\ (g = Distance lap_A \/ length g = 1200%nat)
    /\ delta_curve_spec (delta_time lap_A lap_C c) lap_A lap_C c g.
Proof.
  apply (delta_time_curve lap_A lap_C);
    [reflexivity | reflexivity | simpl; lia | simpl; lia
     | reflexivity | reflexivity].
Defined.

(** On the grid of the sample points, lap A is behind by a tenth of a
    second at distance 50 and ahead by a tenth at distance 100. *)
Example delta_time_scenario :
  delta_time lap_A lap_B
    {| comp_Distance := [Fin 0; Fin 50; Fin 100];
       comp_Speed1 := [Fin 200; Fin 210; Fin 220];
       comp_Speed2 := [Fin 190; Fin 230; Fin 215] |}
  = Ok (Some [Fin ((0 # 1000000000) - (0 # 1000000000));
              Fin ((1000000000 # 1000000000) - (900000000 # 1000000000));
              Fin ((2000000000 # 1000000000) - (2100000000 # 1000000000))]).
Proof. reflexivity. Qed.

Example delta_time_absent :
  forall c, delta_time lap_near lap_B c = Ok None
            /\ delta_time lap_B lap_near c = Ok None.
Proof. intros c. split; reflexivity. Qed.

(** ** The scalar lap-time delta *)

(** C5. For two valid lap times the delta is lap A's time minus lap B's
    time in seconds, whether the subtraction of the two timedeltas succeeds
    or the fallback subtracts the two floats.  With 80.500 s and 79.800 s
    it is seven tenths of a second, displayed as [+0.700s]. *)
Theorem lap_time_delta_seconds (a b : Z) :
  (exists q,
     delta_seconds {| LapTime := Timedelta a |} {| LapTime := Timedelta b |}
     = Fin q
     /\ q == (a # 1000000000) - (b # 1000000000))
  /\ delta_seconds {| LapTime := Timedelta 80500000000 |}
                   {| LapTime := Timedelta 79800000000 |}
     = Fin (700000000 # 1000000000)
  /\ (700000000 # 1000000000) == 7 / 10
  /\ delta_str (Fin (700000000 # 1000000000)) = "+0.700s"%string.
Proof.
  split; [|repeat split; reflexivity].
  unfold delta_seconds, to_timedelta, td_sub. cbn [LapTime].
  destruct (in_int64 (a - b)).
  - eexists. split; [reflexivity|].
    unfold Qeq, Qminus, Qplus, Qopp. cbn [Qnum Qden].
    rewrite Pos2Z.inj_mul. ring.
  - eexists. split; [reflexivity | reflexivity].
Qed.

(** The fallback of the [except] branch is the one used when the
    difference leaves the 64-bit range. *)
Example lap_time_delta_overflow :
  td_sub (Timedelta (2 ^ 63 - 1)) (Timedelta (-5)) = Raise OverflowError
  /\ delta_seconds {| LapTime := Timedelta (2 ^ 63 - 1) |}
                   {| LapTime := Timedelta (-5) |}
     = Fin (((2 ^ 63 - 1) # 1000000000) - (-5 # 1000000000)).
Proof. split; reflexivity. Qed.

(** C6, on the code.  A missing lap time makes the delta [nan]; no
    exception and no zero, but the [nan] goes through the numeric format
    and is displayed as [+nans], whereas [format_laptime] answers [N/A]
    for the same missing value. *)
Theorem missing_lap_time_delta (t : timedelta) :
  delta_seconds {| LapTime := NaT |} {| LapTime := t |} = NaN
  /\ delta_seconds {| LapTime := t |} {| LapTime := NaT |} = NaN
  /\ delta_str NaN = "+nans"%string
  /\ format_laptime NaT = Ok "N/A"%string.
Proof.
  repeat split; try reflexivity.
  destruct t as [v|]; reflexivity.
Qed.

(** ** Formatting *)

Lemma string_length_app (s1 s2 : string) :
  String.length (s1 ++ s2) = (String.length s1 + String.length s2)%nat.
Proof. induction s1 as [|c s1 IH]; simpl; [reflexivity | now rewrite IH]. Qed.

Lemma round_half_even_comp (x y : Q) :
  x == y -> round_half_even x = round_half_even y.
Proof.
  intros E. unfold round_half_even. rewrite (Qfloor_comp _ _ E).
  assert (E' : x - inject_Z (Qfloor y) == y - inject_Z (Qfloor y))
    by now rewrite E.
  now rewrite (Qcompare_comp _ _ E' _ _ (Qeq_refl (1 # 2))).
Qed.

(** The rounded value is the floor or the next integer, and is within one
    half of the exact value. *)
Lemma round_half_even_spec (q : Q) :
  (Qfloor q <= round_half_even q <= Qfloor q + 1)%Z
  /\ - (1 # 2) <= q - inject_Z (round_half_even q) <= 1 # 2.
Proof.
  pose proof (Qfloor_le q) as Hlo. pose proof (Qlt_floor q) as Hhi.
  rewrite inject_Z_plus in Hhi. change (inject_Z 1) with 1 in Hhi.
  unfold round_half_even.
  destruct (Qcompare (q - inject_Z (Qfloor q)) (1 # 2)) eqn:C.
  - apply Qeq_alt in C.
    destruct (Z.even (Qfloor q)).
    + split; [lia | lra].
    + rewrite inject_Z_plus. change (inject_Z 1) with 1. split; [lia | lra].
  - apply Qlt_alt in C. split; [lia | lra].
  - apply Qgt_alt in C. rewrite inject_Z_plus. change (inject_Z 1) with 1.
    split; [lia | lra].
Qed.

Lemma format_3f_comp (plus : bool) (width : nat) (x y : Q) :
  x == y -> format_3f plus width (Fin x) = format_3f plus width (Fin y).
Proof.
  intros E. unfold format_3f.
  assert (E1 : Qlt_bool x 0 = Qlt_bool y 0).
  { destruct (Qlt_bool y 0) eqn:B.
    - apply Qlt_bool_iff. apply Qlt_bool_iff in B. lra.
    - apply Qlt_bool_false. apply Qlt_bool_false in B. lra. }
  assert (E2 : round_half_even (Qabs x * 1000)
               = round_half_even (Qabs y * 1000)).
  { apply round_half_even_comp. now rewrite E. }
  now rewrite E1, E2.
Qed.

(** Minutes and seconds of a timedelta of [v] nanoseconds. *)
Lemma minutes_of_ns (v : Z) :
  minutes_of (v # 1000000000) = (v / 60000000000)%Z.
Proof.
  unfold minutes_of, py_floordiv, py_int. cbn [Qnum Qden inject_Z].
  rewrite Z.quot_1_r.
  assert (E : (v # 1000000000) / 60 == v # 60000000000).
  { unfold Qeq, Qdiv, Qmult, Qinv. cbn [Qnum Qden]. simpl. lia. }
  rewrite (Qfloor_comp _ _ E). reflexivity.
Qed.

Lemma seconds_of_ns (v : Z) :
  seconds_of (v # 1000000000) == (v mod 60000000000) # 1000000000.
Proof.
  unfold seconds_of, py_mod.
  assert (E : (v # 1000000000) / 60 == v # 60000000000).
  { unfold Qeq, Qdiv, Qmult, Qinv. cbn [Qnum Qden]. simpl. lia. }
  rewrite (Qfloor_comp _ _ E).
  change (Qfloor (v # 60000000000)) with (v / 60000000000)%Z.
  rewrite (Z.mod_eq v 60000000000) by lia.
  unfold Qeq, Qminus, Qplus, Qopp, Qmult, inject_Z. cbn [Qnum Qden].
  lia.
Qed.

(** Integers below one hundred print as one or two digits. *)
Lemma string_of_Z_small (k : Z) :
  (0 <= k <= 60)%Z ->
  string_of_Z k
  = if (k <? 10)%Z then String (digit k) EmptyString
    else String (digit (k / 10)) (String (digit (k mod 10)) EmptyString).
Proof.
  intros H.
  assert (E : exists n, k = Z.of_nat n /\ (n <= 60)%nat)
    by (exists (Z.to_nat k); lia).
  destruct E as (n & -> & Hn).
  do 61 (destruct n as [|n]; [reflexivity|]). lia.
Qed.

(** A second count between 0 and 60 in the zero-padded field of width 6:
    two integer digits, the point, three decimals. *)
Lemma padded_fixed3 (m : Z) :
  (0 <= m <= 60000)%Z ->
  ("" ++ zeros (6 - String.length "" - String.length (fixed3 m))
      ++ fixed3 m)%string
  = String (digit (m / 10000))
      (String (digit (m / 1000 mod 10))
         (String "."
            (String (digit (m / 100 mod 10))
               (String (digit (m / 10 mod 10))
                  (String (digit (m mod 10)) EmptyString))))).
Proof.
  intros H. unfold fixed3.
  assert (Hk : (0 <= m / 1000 <= 60)%Z) by (Z.div_mod_to_equations; lia).
  rewrite (string_of_Z_small _ Hk).
  destruct (m / 1000 <? 10)%Z eqn:E.
  - apply Z.ltb_lt in E.
    replace (m / 10000)%Z with 0%Z by (Z.div_mod_to_equations; lia).
    replace (m / 1000 mod 10)%Z with (m / 1000)%Z
      by (Z.div_mod_to_equations; lia).
    reflexivity.
  - apply Z.ltb_ge in E.
    replace (m / 10000)%Z with (m / 1000 / 10)%Z
      by (Z.div_mod_to_equations; lia).
    reflexivity.
Qed.

(** The seconds field of a valid lap time: the thousandths [m] that are
    printed, their range and their distance to the exact remainder. *)
Lemma seconds_field (v : Z) :
  exists m : Z,
    (0 <= m <= 60000)%Z
    /\ (2 * Z.abs (1000000 * m - v mod 60000000000) <= 1000000)%Z
    /\ format_3f false 6 (Fin (seconds_of (v # 1000000000)))
       = String (digit (m / 10000))
           (String (digit (m / 1000 mod 10))
              (String "."
                 (String (digit (m / 100 mod 10))
                    (String (digit (m / 10 mod 10))
                       (String (digit (m mod 10)) EmptyString))))).
Proof.
  set (r := (v mod 60000000000)%Z).
  assert (Hr : (0 <= r < 60000000000)%Z) by (apply Z.mod_pos_bound; lia).
  assert (Hs : seconds_of (v # 1000000000) == r # 1000000000)
    by apply seconds_of_ns.
  assert (Hpos : 0 <= r # 1000000000) by (unfold Qle; simpl; lia).
  assert (Hq : Qabs (r # 1000000000) * 1000 == r # 1000000).
  { rewrite Qabs_pos by assumption. unfold Qeq, Qmult. simpl. lia. }
  exists (round_half_even (r # 1000000)).
  destruct (round_half_even_spec (r # 1000000)) as [Hb Hc].
  change (Qfloor (r # 1000000)) with (r / 1000000)%Z in Hb.
  set (m := round_half_even (r # 1000000)) in *.
  assert (Hm : (0 <= m <= 60000)%Z) by (Z.div_mod_to_equations; lia).
  split; [exact Hm|]. split.
  - destruct Hc as [Hc1 Hc2].
    unfold Qle, Qminus, Qplus, Qopp, inject_Z in Hc1, Hc2.
    cbn [Qnum Qden] in Hc1, Hc2. lia.
  - rewrite (format_3f_comp false 6 _ _ Hs). unfold format_3f.
    replace (Qlt_bool (r # 1000000000) 0) with false
      by (symmetry; now apply Qlt_bool_false).
    rewrite (round_half_even_comp _ _ Hq). fold m. cbv beta zeta.
    now apply padded_fixed3.
Qed.

(** C9. [format_laptime] answers [N/A] for a missing lap time and for no
    other; for a lap time of [v] nanoseconds it prints the whole minutes
    [v / 60 s] (rounded down), a colon, and the seconds remainder as two
    integer digits, a point and three decimals, the remainder being rounded
    correctly to the thousandth.  83.456 s prints as [1:23.456]. *)
Theorem format_laptime_spec :
  (forall t, format_laptime t = Ok "N/A"%string <-> t = NaT)
  /\ (forall v, exists s1 s0 d1 d2 d3 : Z,
        (0 <= s1 <= 9 /\ 0 <= s0 <= 9
         /\ 0 <= d1 <= 9 /\ 0 <= d2 <= 9 /\ 0 <= d3 <= 9)%Z
        /\ format_laptime (Timedelta v)
           = Ok (string_of_Z (v / 60000000000) ++ ":"
                 ++ String (digit s1)
                      (String (digit s0)
                         (String "."
                            (String (digit d1)
                               (String (digit d2)
                                  (String (digit d3) EmptyString))))))%string
        /\ (2 * Z.abs (1000000
                       * (10000 * s1 + 1000 * s0 + 100 * d1 + 10 * d2 + d3)
                       - v mod 60000000000) <= 1000000)%Z)
  /\ format_laptime (Timedelta 83456000000) = Ok "1:23.456"%string.
Proof.
  assert (Hvalid : forall v, exists s1 s0 d1 d2 d3 : Z,
        (0 <= s1 <= 9 /\ 0 <= s0 <= 9
         /\ 0 <= d1 <= 9 /\ 0 <= d2 <= 9 /\ 0 <= d3 <= 9)%Z
        /\ format_laptime (Timedelta v)
           = Ok (string_of_Z (v / 60000000000) ++ ":"
                 ++ String (digit s1)
                      (String (digit s0)
                         (String "."
                            (String (digit d1)
                               (String (digit d2)
                                  (String (digit d3) EmptyString))))))%string
        /\ (2 * Z.abs (1000000
                       * (10000 * s1 + 1000 * s0 + 100 * d1 + 10 * d2 + d3)
                       - v mod 60000000000) <= 1000000)%Z).
  { intros v. destruct (seconds_field v) as (m & Hm & Hacc & Hfmt).
    exists (m / 10000)%Z, (m / 1000 mod 10)%Z, (m / 100 mod 10)%Z,
           (m / 10 mod 10)%Z, (m mod 10)%Z.
    split; [Z.div_mod_to_equations; lia|]. split.
    - unfold format_laptime. cbn [isna total_seconds].
      now rewrite minutes_of_ns, Hfmt.
    - replace (10000 * (m / 10000) + 1000 * (m / 1000 mod 10)
               + 100 * (m / 100 mod 10) + 10 * (m / 10 mod 10)
               + m mod 10)%Z with m by (Z.div_mod_to_equations; lia).
      exact Hacc. }
  split; [|split; [exact Hvalid | reflexivity]].
  intros t. split.
  - destruct t as [v|]; [|reflexivity].
    destruct (Hvalid v) as (s1 & s0 & d1 & d2 & d3 & _ & E & _).
    rewrite E. intros H. injection H as H.
    apply (f_equal String.length) in H.
    rewrite !string_length_app in H. simpl in H. lia.
  - intros ->. reflexivity.
Qed.

(** C10, as the code has it.  For a negative lap time the minutes are the
    floor of the duration over 60 s, hence negative, and the seconds are the
    non-negative remainder in [[0, 60)]; minutes and seconds add up to the
    duration.  Against the whole minutes of the duration (the quotient
    truncated towards zero) the printed minutes are one further from zero
    whenever the duration is not a whole number of minutes, and equal to
    them when it is.  -0.7 s prints as [-1:59.300]. *)
Theorem negative_laptime_format (v : Z) :
  (v < 0)%Z ->
  let m := minutes_of (v # 1000000000) in
  let s := seconds_of (v # 1000000000) in
  format_laptime (Timedelta v)
  = Ok (string_of_Z m ++ ":" ++ format_3f false 6 (Fin s))%string
  /\ m = (v / 60000000000)%Z
  /\ (m < 0)%Z
  /\ 0 <= s /\ s < 60
  /\ inject_Z m * 60 + s == v # 1000000000
  /\ ((v mod 60000000000 <> 0)%Z -> m = (Z.quot v 60000000000 - 1)%Z)
  /\ ((v mod 60000000000 = 0)%Z -> m = Z.quot v 60000000000 /\ s == 0)
  /\ format_laptime (Timedelta (-700000000)) = Ok "-1:59.300"%string.
Proof.
  intros Hv m s.
  assert (Em : m = (v / 60000000000)%Z) by apply minutes_of_ns.
  assert (Es : s == (v mod 60000000000) # 1000000000) by apply seconds_of_ns.
  pose proof (Z.mod_pos_bound v 60000000000 ltac:(lia)) as Hr.
  split; [reflexivity|]. split; [exact Em|].
  split; [rewrite Em; Z.div_mod_to_equations; lia|].
  split; [rewrite Es; unfold Qle; simpl; lia|].
  split; [rewrite Es; unfold Qlt; simpl; lia|].
  split.
  { rewrite Es, Em. rewrite (Z.mod_eq v 60000000000) by lia.
    unfold Qeq, Qplus, Qmult, inject_Z. cbn [Qnum Qden]. lia. }
  split; [intros Hne; rewrite Em; Z.to_euclidean_division_equations; lia|].
  split; [|reflexivity].
  intros H0. split.
  - rewrite Em. Z.to_euclidean_division_equations. lia.
  - rewrite Es, H0. reflexivity.
Qed.

Lemma negative_laptime_format_witness :
  let m := minutes_of (-700000000 # 1000000000) in
  let s := seconds_of (-700000000 # 1000000000) in
  format_laptime (Timedelta (-700000000))
  = Ok (string_of_Z m ++ ":" ++ format_3f false 6 (Fin s))%string
  /\ m = (-700000000 / 60000000000)%Z
  /\ (m < 0)%Z
  /\ 0 <= s /\ s < 60
  /\ inject_Z m * 60 + s == -700000000 # 1000000000
  /\ ((-700000000 mod 60000000000 <> 0)%Z ->
      m = (Z.quot (-700000000) 60000000000 - 1)%Z)
  /\ ((-700000000 mod 60000000000 = 0)%Z ->
      m = Z.quot (-700000000) 60000000000 /\ s == 0)
  /\ format_laptime (Timedelta (-700000000)) = Ok "-1:59.300"%string.
Proof.
  apply (negative_laptime_format (-700000000)). reflexivity.
Defined.

(** C10, as stated, fails on whole minutes: -60 s is negative, its minutes
    are -1, which is its number of whole minutes, not one more, and it
    prints as [-1:00.000]. *)
Lemma whole_minute_not_overcounted :
  (-60000000000 < 0)%Z
  /\ minutes_of (-60000000000 # 1000000000) = (-1)%Z
  /\ Z.quot (-60000000000) 60000000000 = (-1)%Z
  /\ minutes_of (-60000000000 # 1000000000)
     <> (Z.quot (-60000000000) 60000000000 - 1)%Z
  /\ seconds_of (-60000000000 # 1000000000) == 0
  /\ format_laptime (Timedelta (-60000000000)) = Ok "-1:00.000"%string.
Proof.
  repeat split; try reflexivity. intros H. discriminate H.
Qed.

(** * Further properties of the dashboard code *)

(** ** The order of driver codes *)

Lemma string_leb_refl (a : string) : String.leb a a = true.
Proof. destruct (String.leb_total a a); assumption. Qed.

Lemma string_ltb_lt (a b : string) :
  String.ltb a b = true <-> String_as_OT.lt a b.
Proof.
  rewrite <- String_as_OT.cmp_lt. unfold String.ltb, String_as_OT.cmp.
  destruct (String.compare a b); split; congruence.
Qed.

Lemma string_ltb_irrefl (a : string) : String.ltb a a = false.
Proof.
  destruct (String.ltb a a) eqn:E; [|reflexivity].
  apply string_ltb_lt in E. apply String_as_OT.lt_not_eq in E.
  exfalso. apply E. reflexivity.
Qed.

Lemma string_ltb_trans (a b c : string) :
  String.ltb a b = true -> String.ltb b c = true -> String.ltb a c = true.
Proof.
  rewrite !string_ltb_lt. apply String_as_OT.lt_trans.
Qed.

Lemma string_leb_ltb (a b : string) :
  String.leb a b = true <-> String.ltb a b = true \/ a = b.
Proof.
  unfold String.leb, String.ltb.
  destruct (String.compare a b) eqn:C.
  - apply String.compare_eq_iff in C. tauto.
  - tauto.
  - split; [discriminate|]. intros [H|H]; [discriminate|].
    subst. pose proof (string_leb_refl b) as R. unfold String.leb in R.
    now rewrite C in R.
Qed.

Lemma string_leb_false (a b : string) :
  String.leb a b = false -> String.ltb b a = true.
Proof.
  unfold String.leb, String.ltb. rewrite (String.compare_antisym b a).
  destruct (String.compare a b); simpl; congruence.
Qed.

Lemma string_leb_trans (a b c : string) :
  String.leb a b = true -> String.leb b c = true -> String.leb a c = true.
Proof.
  rewrite !string_leb_ltb. intros [H1| ->] [H2| ->]; auto.
  left. now apply string_ltb_trans with b.
Qed.

(** ** [list_drivers] *)

Lemma dropna_In (col : list (option string)) (d : string) :
  In d (dropna col) <-> In (Some d) col.
Proof.
  unfold dropna. rewrite in_flat_map. split.
  - intros ([x|] & Hin & Hd); simpl in Hd; [|contradiction].
    destruct Hd as [-> |[]]. assumption.
  - intros H. exists (Some d). split; [assumption | now left].
Qed.

Lemma existsb_eqb_In (x : string) (seen : list string) :
  existsb (String.eqb x) seen = true <-> In x seen.
Proof.
  rewrite existsb_exists. split.
  - intros (y & Hy & E). apply String.eqb_eq in E. now subst.
  - intros H. exists x. split; [assumption | apply String.eqb_refl].
Qed.

Lemma unique_from_In (seen col : list string) (d : string) :
  In d (unique_from seen col) <-> In d col /\ ~ In d seen.
Proof.
  revert seen. induction col as [|x r IH]; intros seen; simpl; [tauto|].
  destruct (existsb (String.eqb x) seen) eqn:E.
  - apply existsb_eqb_In in E. rewrite IH. split.
    + intros [H1 H2]. tauto.
    + intros [[-> |H1] H2]; [contradiction | tauto].
  - assert (N : ~ In x seen).
    { intros H. apply existsb_eqb_In in H. congruence. }
    simpl. rewrite IH. simpl. split.
    + intros [-> |[H1 H2]]; [tauto|]. split; [tauto|]. tauto.
    + intros [[-> |H1] H2]; [tauto|].
      destruct (String.string_dec x d) as [-> |Hne]; [tauto|]. right. tauto.
Qed.

Lemma unique_from_NoDup (seen col : list string) :
  NoDup (unique_from seen col).
Proof.
  revert seen. induction col as [|x r IH]; intros seen; simpl.
  - constructor.
  - destruct (existsb (String.eqb x) seen); [apply IH|].
    constructor; [|apply IH].
    rewrite unique_from_In. simpl. tauto.
Qed.

Lemma insert_sorted_perm (x : string) (l : list string) :
  Permutation (insert_sorted x l) (x :: l).
Proof.
  induction l as [|y r IH]; simpl; [reflexivity|].
  destruct (String.leb x y); [reflexivity|].
  rewrite IH. apply perm_swap.
Qed.

Lemma list_sort_perm (l : list string) : Permutation (list_sort l) l.
Proof.
  induction l as [|x r IH]; simpl; [reflexivity|].
  rewrite insert_sorted_perm. now constructor.
Qed.

Lemma insert_sorted_sorted (x : string) (l : list string) :
  StronglySorted (fun a b => String.leb a b = true) l ->
  StronglySorted (fun a b => String.leb a b = true) (insert_sorted x l).
Proof.
  induction l as [|y r IH]; intros Hs; simpl.
  - repeat constructor.
  - inversion Hs as [|? ? Hr Hy]; subst.
    destruct (String.leb x y) eqn:E.
    + constructor; [assumption|]. constructor; [assumption|].
      rewrite Forall_forall in *. intros z Hz.
      apply string_leb_trans with y; auto.
    + constructor; [now apply IH|].
      rewrite Forall_forall in *. intros z Hz.
      apply (Permutation_in _ (insert_sorted_perm x r)) in Hz.
      destruct Hz as [<- |Hz]; [|auto].
      apply string_leb_false in E. apply string_leb_ltb. now left.
Qed.

Lemma list_sort_sorted (l : list string) :
  StronglySorted (fun a b => String.leb a b = true) (list_sort l).
Proof.
  induction l as [|x r IH]; simpl; [constructor|].
  now apply insert_sorted_sorted.
Qed.

Lemma sorted_NoDup_strict (l : list string) :
  StronglySorted (fun a b => String.leb a b = true) l -> NoDup l ->
  StronglySorted (fun a b => String.ltb a b = true) l.
Proof.
  induction 1 as [|x r Hr IH Hx]; intros Hn; [constructor|].
  inversion Hn as [|? ? Hnot Hn']; subst.
  constructor; [now apply IH|].
  rewrite Forall_forall in *. intros z Hz.
  destruct (proj1 (string_leb_ltb x z) (Hx z Hz)) as [H| ->];
    [assumption | contradiction].
Qed.

(** A strictly increasing list is determined by its elements. *)
Lemma strict_sorted_ext (l1 l2 : list string) :
  StronglySorted (fun a b => String.ltb a b = true) l1 ->
  StronglySorted (fun a b => String.ltb a b = true) l2 ->
  (forall d, In d l1 <-> In d l2) -> l1 = l2.
Proof.
  intros H1. revert l2. induction H1 as [|x r Hr IH Hx]; intros l2 H2 Hin.
  - destruct l2 as [|y r2]; [reflexivity|].
    exfalso. apply (proj2 (Hin y)). now left.
  - destruct H2 as [|y r2 Hr2 Hy].
    + exfalso. apply (proj1 (Hin x)). now left.
    + rewrite Forall_forall in Hx, Hy.
      assert (E : x = y).
      { destruct (proj1 (Hin x) (or_introl eq_refl)) as [E|Hx2]; [auto|].
        destruct (proj2 (Hin y) (or_introl eq_refl)) as [E|Hy1]; [auto|].
        pose proof (string_ltb_trans _ _ _ (Hx y Hy1) (Hy x Hx2)) as T.
        rewrite string_ltb_irrefl in T. discriminate. }
      subst y. f_equal. apply IH; [assumption|].
      intros d. split; intros Hd.
      * destruct (proj1 (Hin d) (or_intror Hd)) as [<- |H]; [|assumption].
        pose proof (Hx _ Hd) as T. rewrite string_ltb_irrefl in T.
        discriminate.
      * destruct (proj2 (Hin d) (or_intror Hd)) as [<- |H]; [|assumption].
        pose proof (Hy _ Hd) as T. rewrite string_ltb_irrefl in T.
        discriminate.
Qed.

Lemma list_drivers_strict (laps_Driver : list (option string)) :
  StronglySorted (fun a b => String.ltb a b = true) (list_drivers laps_Driver).
Proof.
  unfold list_drivers. apply sorted_NoDup_strict; [apply list_sort_sorted|].
  apply (Permutation_NoDup (Permutation_sym (list_sort_perm _))).
  apply unique_from_NoDup.
Qed.

Lemma list_drivers_mem (laps_Driver : list (option string)) (d : string) :
  In d (list_drivers laps_Driver) <-> In (Some d) laps_Driver.
Proof.
  unfold list_drivers, unique.
  rewrite <- dropna_In. split.
  - intros H. apply (Permutation_in _ (list_sort_perm _)) in H.
    now apply unique_from_In in H.
  - intros H.
    apply (Permutation_in _ (Permutation_sym (list_sort_perm _))).
    apply unique_from_In. simpl. tauto.
Qed.

(** X1. The driver list is strictly increasing in the order of strings:
    alphabetical, and no code twice. *)
Theorem list_drivers_increasing (laps_Driver : list (option string)) :
  StronglySorted (fun a b => String.ltb a b = true) (list_drivers laps_Driver)
  /\ NoDup (list_drivers laps_Driver).
Proof.
  split; [apply list_drivers_strict|].
  unfold list_drivers.
  apply (Permutation_NoDup (Permutation_sym (list_sort_perm _))).
  apply unique_from_NoDup.
Qed.

(** X2. A code is in the driver list exactly when some lap carries it;
    missing entries contribute nothing. *)
Theorem list_drivers_In (laps_Driver : list (option string)) (d : string) :
  In d (list_drivers laps_Driver) <-> In (Some d) laps_Driver.
Proof. apply list_drivers_mem. Qed.

(** X3. The driver list depends only on which codes occur in the laps, not
    on their order or number of occurrences. *)
Theorem list_drivers_canonical (col1 col2 : list (option string)) :
  (forall d, In (Some d) col1 <-> In (Some d) col2) ->
  list_drivers col1 = list_drivers col2.
Proof.
  intros H. apply strict_sorted_ext; try apply list_drivers_strict.
  intros d. now rewrite !list_drivers_mem.
Qed.

Lemma list_drivers_canonical_witness :
  list_drivers [Some "VER"; None; Some "HAM"; Some "VER"]%string
  = list_drivers [Some "HAM"; Some "VER"]%string.
Proof.
  apply list_drivers_canonical. intros d. simpl. intuition discriminate.
Defined.

Example list_drivers_scenario :
  list_drivers [Some "VER"; None; Some "HAM"; Some "VER"; Some "ALO"]%string
  = ["ALO"; "HAM"; "VER"]%string.
Proof. reflexivity. Qed.

(** ** [fastest_lap_telemetry]: the columns that are kept *)

Lemma has_column_In {C : Type} (name : string) (cols : list (string * C)) :
  has_column name cols = true <-> In name (map fst cols).
Proof.
  unfold has_column. rewrite existsb_exists, in_map_iff. split.
  - intros (kv & Hin & E). apply String.eqb_eq in E. eauto.
  - intros (kv & E & Hin). exists kv. split; [assumption|].
    now apply String.eqb_eq.
Qed.

Lemma getitem_None {C : Type} (name : string) (cols : list (string * C)) :
  getitem name cols = None <-> ~ In name (map fst cols).
Proof.
  induction cols as [|[k v] r IH]; simpl; [tauto|].
  destruct (String.eqb k name) eqn:E.
  - apply String.eqb_eq in E. split; [discriminate | tauto].
  - apply String.eqb_neq in E. rewrite IH. tauto.
Qed.

Lemma getitem_app {C : Type} (name : string) (l1 l2 : list (string * C)) :
  getitem name (l1 ++ l2)
  = match getitem name l1 with
    | Some v => Some v
    | None => getitem name l2
    end.
Proof.
  induction l1 as [|[k v] r IH]; simpl; [reflexivity|].
  destruct (String.eqb k name); [reflexivity | apply IH].
Qed.

Lemma getitem_filter_same {C : Type} (name : string)
    (cols : list (string * C)) :
  getitem name (filter (fun kv => String.eqb (fst kv) name) cols)
  = getitem name cols.
Proof.
  induction cols as [|[k v] r IH]; simpl; [reflexivity|].
  destruct (String.eqb k name) eqn:E; simpl; rewrite ?E; auto.
Qed.

Lemma getitem_filter_other {C : Type} (name c : string)
    (cols : list (string * C)) :
  c <> name ->
  getitem name (filter (fun kv => String.eqb (fst kv) c) cols) = None.
Proof.
  intros Hne. apply getitem_None. rewrite in_map_iff.
  intros ([k v] & E & Hin). apply filter_In in Hin. destruct Hin as [_ Hk].
  apply String.eqb_eq in Hk. simpl in *. congruence.
Qed.

(** [df[names]] keeps the columns that are asked for, as they are. *)
Lemma getitem_getitem_list {C : Type} (name : string) (names : list string)
    (cols : list (string * C)) :
  getitem name (getitem_list names cols)
  = if existsb (String.eqb name) names then getitem name cols else None.
Proof.
  unfold getitem_list. induction names as [|c r IH]; simpl; [reflexivity|].
  rewrite getitem_app.
  destruct (String.eqb name c) eqn:E; simpl.
  - apply String.eqb_eq in E. subst c. rewrite getitem_filter_same.
    destruct (getitem name cols) eqn:G; [reflexivity|].
    rewrite IH. now destruct (existsb _ r).
  - apply String.eqb_neq in E.
    rewrite getitem_filter_other by congruence. apply IH.
Qed.

Lemma filter_key_absent {C : Type} (c : string) (cols : list (string * C)) :
  ~ In c (map fst cols) ->
  filter (fun kv => String.eqb (fst kv) c) cols = [].
Proof.
  induction cols as [|[k v] t IH]; simpl; [reflexivity|].
  intros H. destruct (String.eqb k c) eqn:E.
  - apply String.eqb_eq in E. tauto.
  - apply IH. tauto.
Qed.

Lemma filter_key_single {C : Type} (c : string) (cols : list (string * C)) :
  NoDup (map fst cols) -> In c (map fst cols) ->
  map fst (filter (fun kv => String.eqb (fst kv) c) cols) = [c].
Proof.
  induction cols as [|[k v] t IH]; simpl; [contradiction|].
  intros Hnd Hc. inversion Hnd as [|? ? Hk Ht]; subst.
  destruct (String.eqb k c) eqn:E.
  - apply String.eqb_eq in E. subst k. simpl.
    now rewrite (filter_key_absent c t Hk).
  - apply String.eqb_neq in E. apply IH; [assumption|].
    destruct Hc as [Hc|Hc]; [contradiction | assumption].
Qed.

(** With distinct column names, [df[names]] has exactly the columns
    [names], in that order. *)
Lemma getitem_list_names {C : Type} (names : list string)
    (cols : list (string * C)) :
  NoDup (map fst cols) ->
  (forall c, In c names -> In c (map fst cols)) ->
  map fst (getitem_list names cols) = names.
Proof.
  intros Hnd Hall. unfold getitem_list.
  induction names as [|c r IH]; simpl; [reflexivity|].
  rewrite map_app, IH by (intros; apply Hall; now right).
  rewrite filter_key_single; [reflexivity | assumption | apply Hall; now left].
Qed.

Lemma getitem_list_keys {C : Type} (k : string) (names : list string)
    (cols : list (string * C)) :
  In k (map fst (getitem_list names cols)) -> In k names.
Proof.
  unfold getitem_list. rewrite in_map_iff.
  intros ([k' v] & E & Hin). simpl in E. subst k'.
  apply in_flat_map in Hin. destruct Hin as (c & Hc & Hin).
  apply filter_In in Hin. destruct Hin as [_ Hk].
  apply String.eqb_eq in Hk. simpl in Hk. now subst.
Qed.

Lemma existsb_eqb_In_r (c : string) (names : list string) :
  existsb (String.eqb c) names = true <-> In c names.
Proof. apply existsb_eqb_In. Qed.

Lemma kept_columns_In (c : string) (cols : list (string * column)) :
  In c (filter (fun c => has_column c cols) TELEMETRY_COLUMNS)
  <-> In c TELEMETRY_COLUMNS /\ has_column c cols = true.
Proof. apply filter_In. Qed.

Lemma Driver_not_telemetry_column : ~ In "Driver"%string TELEMETRY_COLUMNS.
Proof. simpl. intuition discriminate. Qed.

(** The frame before the [Driver] column is set. *)
Lemma selected_no_Driver (cols : list (string * column)) :
  has_column "Driver"
    (getitem_list (filter (fun c => has_column c cols) TELEMETRY_COLUMNS) cols)
  = false.
Proof.
  destruct (has_column _ _) eqn:E; [|reflexivity].
  apply has_column_In in E. apply getitem_list_keys in E.
  apply kept_columns_In in E. destruct E as [E _].
  now apply Driver_not_telemetry_column in E.
Qed.

(** X4. [fastest_lap_telemetry] returns the picked lap and a frame with the
    same number of rows in which each of the seven telemetry columns is
    what it was in the session's frame (present or missing), every other
    column is gone, and [Driver] holds the driver code on every row. *)
Theorem fastest_lap_telemetry_columns
    (picked : lap) (tel : frame) (driver_code : string) :
  let out := snd (fastest_lap_telemetry picked tel driver_code) in
  fst (fastest_lap_telemetry picked tel driver_code) = picked
  /\ nrows out = nrows tel
  /\ getitem "Driver" (columns out)
     = Some (StrColumn (repeat driver_code (nrows tel)))
  /\ (forall c, In c TELEMETRY_COLUMNS ->
        getitem c (columns out) = getitem c (columns tel))
  /\ (forall c, ~ In c TELEMETRY_COLUMNS -> c <> "Driver"%string ->
        getitem c (columns out) = None).
Proof.
  unfold fastest_lap_telemetry. cbn [fst snd nrows columns].
  unfold setitem. rewrite selected_no_Driver.
  set (K := filter (fun c => has_column c (columns tel)) TELEMETRY_COLUMNS).
  assert (HK : forall c, existsb (String.eqb c) K = true
                         <-> In c TELEMETRY_COLUMNS
                             /\ has_column c (columns tel) = true).
  { intros c. rewrite existsb_eqb_In. apply kept_columns_In. }
  split; [reflexivity|]. split; [reflexivity|].
  split; [|split].
  - rewrite getitem_app, getitem_getitem_list.
    destruct (existsb (String.eqb "Driver") K) eqn:E; [|reflexivity].
    apply HK in E. destruct E as [E _].
    now apply Driver_not_telemetry_column in E.
  - intros c Hc. rewrite getitem_app, getitem_getitem_list.
    destruct (existsb (String.eqb c) K) eqn:E.
    + apply HK in E. destruct E as [_ E].
      destruct (getitem c (columns tel)) eqn:G; [reflexivity|].
      apply getitem_None in G. apply has_column_In in E. contradiction.
    + assert (G : getitem c (columns tel) = None).
      { apply getitem_None. intros H. apply has_column_In in H.
        assert (existsb (String.eqb c) K = true) by (apply HK; tauto).
        congruence. }
      rewrite G. cbn [getitem].
      destruct (String.eqb "Driver" c) eqn:D; [|reflexivity].
      apply String.eqb_eq in D. subst c.
      now apply Driver_not_telemetry_column in Hc.
  - intros c Hc Hd. rewrite getitem_app, getitem_getitem_list.
    destruct (existsb (String.eqb c) K) eqn:E.
    + apply HK in E. tauto.
    + cbn [getitem]. destruct (String.eqb "Driver" c) eqn:D; [|reflexivity].
      apply String.eqb_eq in D. congruence.
Qed.

(** X5. When the session's frame has distinct column names, the columns of
    the returned frame are the telemetry columns it had, in the fixed order
    Distance, SessionTime, Speed, Throttle, Brake, nGear, RPM, followed by
    [Driver]; the order of the session's frame plays no role. *)
Theorem fastest_lap_telemetry_order
    (picked : lap) (tel : frame) (driver_code : string) :
  NoDup (map fst (columns tel)) ->
  map fst (columns (snd (fastest_lap_telemetry picked tel driver_code)))
  = filter (fun c => has_column c (columns tel)) TELEMETRY_COLUMNS
    ++ ["Driver"%string].
Proof.
  intros Hnd. unfold fastest_lap_telemetry. cbn [fst snd nrows columns].
  unfold setitem. rewrite selected_no_Driver.
  rewrite map_app. simpl. f_equal.
  apply getitem_list_names; [assumption|].
  intros c Hc. apply kept_columns_In in Hc. destruct Hc as [_ Hc].
  now apply has_column_In.
Qed.

Lemma fastest_lap_telemetry_order_witness :
  map fst (columns (snd (fastest_lap_telemetry
                           {| LapTime := Timedelta 80500000000 |}
                           raw_frame "VER")))
  = filter (fun c => has_column c (columns raw_frame)) TELEMETRY_COLUMNS
    ++ ["Driver"%string].
Proof.
  apply fastest_lap_telemetry_order.
  simpl. repeat constructor; simpl; intuition discriminate.
Defined.

Example fastest_lap_telemetry_scenario :
  snd (fastest_lap_telemetry {| LapTime := Timedelta 80500000000 |}
         raw_frame "VER")
  = {| nrows := 2;
       columns :=
         [("Distance", FloatColumn [0; 50]);
          ("SessionTime", TimedeltaColumn [0; 1000000000]%Z);
          ("Speed", FloatColumn [200; 210]);
          ("Driver", StrColumn ["VER"; "VER"])]%string |}.
Proof. reflexivity. Qed.

(** ** The Grand Prix options *)

Lemma prefix_app (sub s : string) :
  String.prefix sub s = true <-> exists post, s = (sub ++ post)%string.
Proof.
  revert s. induction sub as [|a sub IH]; intros s; simpl.
  - destruct s; split; eauto.
  - destruct s as [|b s]; simpl.
    + split; [discriminate | intros (post & E); discriminate E].
    + destruct (Ascii.ascii_dec a b) as [->|Hne].
      * rewrite IH. split; intros (post & E); exists post; congruence.
      * split; [discriminate | intros (post & E)]. congruence.
Qed.

(** [contains] decides the occurrence of a substring. *)
Lemma contains_occurs (sub s : string) :
  contains sub s = true <-> occurs_in sub s.
Proof.
  unfold occurs_in. induction s as [|c s IH].
  - cbn [contains]. rewrite orb_false_r, prefix_app. split.
    + intros (post & E). exists EmptyString, post. exact E.
    + intros (pre & post & E). destruct pre; [eauto|discriminate E].
  - cbn [contains]. rewrite orb_true_iff, prefix_app, IH. split.
    + intros [(post & E)|(pre & post & E)].
      * exists EmptyString, post. exact E.
      * exists (String c pre), post. simpl. now rewrite E.
    + intros (pre & post & E). destruct pre as [|c' pre].
      * left. eauto.
      * right. simpl in E. injection E as _ E. eauto.
Qed.

Lemma label_count_filter {C : Type} (name : string)
    (cols : list (string * C)) :
  label_count name cols
  = length (filter (fun kv => String.eqb (fst kv) name) cols).
Proof.
  unfold label_count. induction cols as [|[k v] r IH]; [reflexivity|].
  cbn [map fst filter]. destruct (String.eqb k name) eqn:E.
  - apply String.eqb_eq in E. subst k.
    rewrite count_occ_cons_eq by reflexivity. simpl. now rewrite IH.
  - apply String.eqb_neq in E. now rewrite count_occ_cons_neq.
Qed.

Lemma has_column_count {C : Type} (name : string) (cols : list (string * C)) :
  has_column name cols = (0 <? label_count name cols)%nat.
Proof.
  unfold label_count.
  destruct (has_column name cols) eqn:H; symmetry.
  - apply has_column_In in H. apply Nat.ltb_lt.
    now apply (count_occ_In String.string_dec).
  - apply Nat.ltb_ge.
    assert (N : ~ In name (map fst cols)).
    { intros I. apply has_column_In in I. congruence. }
    apply (count_occ_not_In String.string_dec) in N. lia.
Qed.

(** The three outcomes of [schedule[name].tolist()]. *)
Lemma column_tolist_cases (name : string)
    (schedule : list (string * list string)) :
  (label_count name schedule = 0%nat
   /\ column_tolist name schedule = inl (KeyError name))
  \/ (label_count name schedule = 1%nat
      /\ exists col, column_tolist name schedule = inr col
                     /\ getitem name schedule = Some col)
  \/ ((1 < label_count name schedule)%nat
      /\ column_tolist name schedule = inl AttributeError).
Proof.
  rewrite label_count_filter. unfold column_tolist.
  pose proof (getitem_filter_same name schedule) as G.
  assert (K : forall kv,
             In kv (filter (fun kv => String.eqb (fst kv) name) schedule) ->
             fst kv = name).
  { intros kv H. apply filter_In in H. now apply String.eqb_eq. }
  destruct (filter _ schedule) as [|[k col] [|kv2 r]].
  - left. split; reflexivity.
  - right; left. split; [reflexivity|]. exists col. split; [reflexivity|].
    rewrite <- G. cbn [getitem].
    pose proof (K (k, col) (or_introl eq_refl)) as Ek. simpl in Ek.
    subst k. now rewrite String.eqb_refl.
  - right; right. split; [simpl; lia | reflexivity].
Qed.

(** The block reads the column [event_label], if there is one. *)
Lemma grand_prix_options_label (schedule : list (string * list string)) :
  grand_prix_options (Ok schedule)
  = match event_label schedule with
    | Some c =>
        match column_tolist c schedule with
        | inl e => inl (schedule_error e)
        | inr names =>
            match filter (fun gp => negb (contains "Testing" gp)) names with
            | [] => inl no_events_warning
            | gp :: r => inr (gp :: r)
            end
        end
    | None => inl no_events_warning
    end.
Proof.
  unfold grand_prix_options, event_label. cbn [find filter].
  rewrite <- !has_column_count.
  assert (R : forall c,
             match column_tolist c schedule with
             | inl e => inl (schedule_error e)
             | inr gps =>
                 match filter (fun gp => negb (contains "Testing" gp)) gps
                 with
                 | [] => inl no_events_warning
                 | _ :: _ =>
                     inr (filter (fun gp => negb (contains "Testing" gp)) gps)
                 end
             end
             = match column_tolist c schedule with
               | inl e => inl (schedule_error e)
               | inr names =>
                   match filter (fun gp => negb (contains "Testing" gp)) names
                   with
                   | [] => @inl notice (list string) no_events_warning
                   | gp :: r => inr (gp :: r)
                   end
               end).
  { intros c. destruct (column_tolist c schedule) as [e|names];
      [reflexivity|]. destruct (filter _ names); reflexivity. }
  destruct (has_column "EventName" schedule); [apply R|].
  destruct (has_column "OfficialEventName" schedule); [apply R|].
  destruct (has_column "Event" schedule); [apply R | reflexivity].
Qed.

Lemma filter_without_testing (names : list string) :
  without_testing names
    (filter (fun gp => negb (contains "Testing" gp)) names).
Proof.
  induction names as [|x r IH]; simpl; [constructor|].
  destruct (contains "Testing" x) eqn:C; simpl.
  - apply wt_drop; [|assumption]. now apply contains_occurs.
  - apply wt_keep; [|assumption].
    intros H. apply contains_occurs in H. congruence.
Qed.

(** X6. When exactly one column of the schedule is labelled [EventName],
    the Grand Prix options are the names of that column without those in
    which "Testing" occurs, in the same order and as often; when no name
    is left the page stops with the no-events warning. *)
Theorem grand_prix_options_no_testing
    (schedule : list (string * list string)) (names : list string) :
  label_count "EventName" schedule = 1%nat ->
  getitem "EventName" schedule = Some names ->
  match grand_prix_options (Ok schedule) with
  | inr gps => gps <> [] /\ without_testing names gps
  | inl n => n = no_events_warning /\ without_testing names []
  end.
Proof.
  intros Hc G. rewrite grand_prix_options_label.
  assert (El : event_label schedule = Some "EventName"%string).
  { unfold event_label. cbn [find]. now rewrite Hc. }
  rewrite El.
  destruct (column_tolist_cases "EventName" schedule)
    as [[H _]|[[_ (col & E & G')]|[H _]]]; try lia.
  rewrite E. assert (col = names) by congruence. subst col.
  pose proof (filter_without_testing names) as W.
  destruct (filter _ names); [split; [reflexivity | exact W]|].
  split; [discriminate | exact W].
Qed.

Lemma grand_prix_options_no_testing_witness :
  match grand_prix_options (Ok schedule_2024) with
  | inr gps =>
      gps <> []
      /\ without_testing
           ["Pre-Season Testing"; "Bahrain Grand Prix";
            "Saudi Arabian Grand Prix"]%string gps
  | inl n =>
      n = no_events_warning
      /\ without_testing
           ["Pre-Season Testing"; "Bahrain Grand Prix";
            "Saudi Arabian Grand Prix"]%string []
  end.
Proof.
  apply (grand_prix_options_no_testing schedule_2024); reflexivity.
Defined.

Example grand_prix_options_scenario :
  grand_prix_options (Ok schedule_2024)
  = inr ["Bahrain Grand Prix"; "Saudi Arabian Grand Prix"]%string.
Proof. reflexivity. Qed.

(** A schedule with two columns labelled [EventName] stops the page with
    the schedule error, although fetching it did not raise. *)
Example grand_prix_options_duplicate_label :
  grand_prix_options
    (Ok [("EventName", ["Bahrain Grand Prix"]);
         ("EventName", ["Bahrain"])]%string)
  = inl (schedule_error AttributeError).
Proof. reflexivity. Qed.

(** X7. The page shows the schedule error in two cases and no other: when
    fetching the schedule raised, with that exception, and when the label
    the block reads the names from labels more than one column, with the
    attribute error of [tolist].  The look-ups are guarded by membership
    tests, so a [KeyError] is never shown. *)
Theorem grand_prix_options_error
    (fetched : result (list (string * list string))) (e : caught) :
  grand_prix_options fetched = inl (schedule_error e)
  <-> (exists e', fetched = Raise e' /\ e = fetch_failure e')
      \/ (exists schedule name,
            fetched = Ok schedule
            /\ event_label schedule = Some name
            /\ (1 < label_count name schedule)%nat
            /\ e = AttributeError).
Proof.
  split.
  - destruct fetched as [schedule|e'].
    + rewrite grand_prix_options_label.
      destruct (event_label schedule) as [c|] eqn:El; [|discriminate].
      assert (Hpos : (0 < label_count c schedule)%nat).
      { unfold event_label in El. apply find_some in El.
        destruct El as [_ El]. now apply Nat.ltb_lt in El. }
      destruct (column_tolist_cases c schedule)
        as [[H _]|[[_ (col & E & _)]|[H E]]]; [lia| |].
      * rewrite E. destruct (filter _ col); discriminate.
      * rewrite E. intros Heq. injection Heq as <-.
        right. exists schedule, c. auto.
    + simpl. intros H. injection H as <-. left. eauto.
  - intros [(e' & -> & ->)|(schedule & name & -> & El & Hc & ->)].
    + reflexivity.
    + rewrite grand_prix_options_label, El.
      destruct (column_tolist_cases name schedule)
        as [[H _]|[[H _]|[_ E]]]; try lia.
      now rewrite E.
Qed.

(** ** The brake trace *)

Lemma brake_max_le_1 (brake : list Q) :
  fle (series_max brake) (Fin 1) = true
  <-> brake <> [] /\ Forall (fun b => b <= 1) brake.
Proof.
  destruct brake as [|x r].
  - simpl. split; [discriminate | intros [H _]; congruence].
  - destruct (series_max_spec (x :: r) ltac:(discriminate))
      as (M & E & Hin & Hall).
    rewrite E. unfold fle, fcmp. rewrite Qle_bool_iff. split.
    + intros H. split; [discriminate|].
      rewrite Forall_forall in *. intros b Hb. specialize (Hall b Hb). lra.
    + intros [_ H]. rewrite Forall_forall in H. now apply H.
Qed.

(** X8. The brake column is plotted times one hundred when none of its
    values exceeds 1, and as it is when some value exceeds 1; an empty
    column is left empty. *)
Theorem brake_percent_scaling (brake : list Q) :
  (Forall (fun b => b <= 1) brake ->
   brake_percent brake = map (fun b => b * 100) brake)
  /\ (Exists (fun b => 1 < b) brake -> brake_percent brake = brake)
  /\ length (brake_percent brake) = length brake.
Proof.
  unfold brake_percent.
  destruct (fle (series_max brake) (Fin 1)) eqn:E.
  - apply brake_max_le_1 in E. destruct E as [_ E].
    split; [reflexivity|]. split; [|apply length_map].
    intros H. apply Exists_exists in H. destruct H as (b & Hb & Hlt).
    rewrite Forall_forall in E. specialize (E b Hb). lra.
  - split; [|split; reflexivity].
    intros H. destruct brake as [|x r]; [reflexivity|].
    assert (T : fle (series_max (x :: r)) (Fin 1) = true)
      by (apply brake_max_le_1; split; [discriminate | assumption]).
    congruence.
Qed.

(** X9. A brake column with values between 0 and 100 is plotted with
    values between 0 and 100. *)
Theorem brake_percent_range (brake : list Q) :
  Forall (fun b => 0 <= b /\ b <= 100) brake ->
  Forall (fun p => 0 <= p /\ p <= 100) (brake_percent brake).
Proof.
  intros H. unfold brake_percent.
  destruct (fle (series_max brake) (Fin 1)) eqn:E; [|assumption].
  apply brake_max_le_1 in E. destruct E as [_ E].
  rewrite Forall_forall in *. intros p Hp.
  apply in_map_iff in Hp. destruct Hp as (b & <- & Hb).
  specialize (H b Hb). specialize (E b Hb). lra.
Qed.

Lemma brake_percent_range_witness :
  Forall (fun p => 0 <= p /\ p <= 100) (brake_percent [0; 1 # 2; 1]).
Proof.
  apply brake_percent_range.
  repeat constructor; unfold Qle; simpl; lia.
Defined.

Example brake_percent_scenario :
  brake_percent [0; 1; 1; 0] = [0 * 100; 1 * 100; 1 * 100; 0 * 100]
  /\ brake_percent [0; 35; 100] = [0; 35; 100]
  /\ brake_percent [0; 1 # 2; 1] = [0 * 100; (1 # 2) * 100; 1 * 100].
Proof. repeat split; reflexivity. Qed.

(** ** More on [compare_fastest] *)

Lemma np_interp_length (x : list pyfloat) (xp fp : list Q)
    (out : list pyfloat) :
  np_interp x xp fp = Ok out -> length out = length x.
Proof.
  unfold np_interp.
  destruct (Z.of_nat (length xp) =? 0)%Z; [discriminate|].
  destruct (negb _); [discriminate|].
  destruct (Z.of_nat (length xp) =? 1)%Z; intros H; injection H as <-.
  - apply length_map.
  - apply interp_loop_length.
Qed.

(** X10. Whatever the two frames, a comparison that is returned has three
    columns of the same length: one speed per lap for every grid value. *)
Theorem comparison_columns_aligned (tel1 tel2 : telemetry) :
  match compare_fastest tel1 tel2 with
  | Ok c =>
      length (comp_Speed1 c) = length (comp_Distance c)
      /\ length (comp_Speed2 c) = length (comp_Distance c)
  | Raise _ => True
  end.
Proof.
  unfold compare_fastest, bind.
  destruct (np_interp _ (Distance tel1) _) as [s1|] eqn:E1; [|exact I].
  destruct (np_interp _ (Distance tel2) _) as [s2|] eqn:E2; [|exact I].
  simpl. split; eapply np_interp_length; eassumption.
Qed.

(** X11. For two frames with columns of equal length, [compare_fastest]
    returns a comparison exactly when both laps have samples. *)
Theorem compare_fastest_succeeds_iff (tel1 tel2 : telemetry) :
  frame_ok tel1 = true -> frame_ok tel2 = true ->
  ((exists c, compare_fastest tel1 tel2 = Ok c)
   <-> (0 < length (Distance tel1))%nat /\ (0 < length (Distance tel2))%nat).
Proof.
  intros F1 F2. unfold compare_fastest, bind. split.
  - intros (c & H).
    destruct (Distance tel1) as [|x1 r1] eqn:D1;
      [rewrite np_interp_empty in H; discriminate H|].
    destruct (np_interp _ (x1 :: r1) _); [|discriminate H].
    destruct (Distance tel2) as [|x2 r2] eqn:D2;
      [rewrite np_interp_empty in H; discriminate H|].
    simpl. lia.
  - intros [N1 N2].
    destruct (np_interp_ok (dist tel1 tel2) (Distance tel1) (Speed tel1)
                (nonempty_length _ N1) (frame_ok_Speed _ F1))
      as (s1 & E1 & _).
    destruct (np_interp_ok (dist tel1 tel2) (Distance tel2) (Speed tel2)
                (nonempty_length _ N2) (frame_ok_Speed _ F2))
      as (s2 & E2 & _).
    rewrite E1, E2. eauto.
Qed.

Lemma compare_fastest_succeeds_iff_witness :
  (exists c, compare_fastest lap_A lap_B = Ok c)
  <-> (0 < length (Distance lap_A))%nat
      /\ (0 < length (Distance lap_B))%nat.
Proof.
  apply (compare_fastest_succeeds_iff lap_A lap_B); reflexivity.
Defined.

Lemma py_max_bounds (x y m : Q) :
  py_max (Fin x) (Fin y) = Fin m -> x <= m /\ y <= m.
Proof.
  unfold py_max, fgt, flt, fcmp. destruct (Qlt_bool x y) eqn:E;
    intros H; injection H as <-.
  - apply Qlt_bool_iff in E. lra.
  - apply Qlt_bool_false in E. lra.
Qed.

Lemma py_min_bounds (x y m : Q) :
  py_min (Fin x) (Fin y) = Fin m -> m <= x /\ m <= y.
Proof.
  unfold py_min, flt, fcmp. destruct (Qlt_bool y x) eqn:E;
    intros H; injection H as <-.
  - apply Qlt_bool_iff in E. lra.
  - apply Qlt_bool_false in E. lra.
Qed.

(** X12. When both laps have samples and their ranges overlap, every value
    of the grid lies between two recorded distances of lap A and between
    two recorded distances of lap B: no grid point is outside a lap's
    range, so no speed of the comparison is a clamped one. *)
Theorem overlap_grid_within_ranges (tel1 tel2 : telemetry) :
  (0 < length (Distance tel1))%nat -> (0 < length (Distance tel2))%nat ->
  fle (dmax tel1 tel2) (dmin tel1 tel2) = false ->
  exists g,
    dist tel1 tel2 = map Fin g
    /\ length g = 1200%nat
    /\ forall x, In x g ->
         within x (Distance tel1) /\ within x (Distance tel2).
Proof.
  intros N1 N2 Hov.
  destruct (series_min_spec _ (nonempty_length _ N1)) as (m1 & Em1 & I1 & _).
  destruct (series_min_spec _ (nonempty_length _ N2)) as (m2 & Em2 & I2 & _).
  destruct (series_max_spec _ (nonempty_length _ N1)) as (M1 & EM1 & J1 & _).
  destruct (series_max_spec _ (nonempty_length _ N2)) as (M2 & EM2 & J2 & _).
  destruct (grid_cases tel1 tel2 N1 N2)
    as (dMin & dMax & Hmin & Hmax & [[Hle _]|[Hlt Hg]]).
  { rewrite Hmin, Hmax in Hov. unfold fle, fcmp in Hov.
    apply Qle_bool_false in Hov. lra. }
  unfold dmin in Hmin. rewrite Em1, Em2 in Hmin.
  unfold dmax in Hmax. rewrite EM1, EM2 in Hmax.
  apply py_max_bounds in Hmin. apply py_min_bounds in Hmax.
  exists (linspace_values dMin dMax 1198).
  split; [exact Hg|]. split; [apply linspace_values_length|].
  intros x Hx.
  destruct (In_nth _ _ 0 Hx) as (i & Hi & Ex).
  rewrite linspace_values_length in Hi.
  assert (Hlo : dMin <= x).
  { rewrite <- Ex, linspace_values_nth by (assumption || lia).
    assert (E0 : linspace_point dMin dMax 1198 0 == dMin).
    { unfold linspace_point. change (inject_Z (Z.of_nat 0)) with 0. ring. }
    rewrite <- E0 at 1.
    destruct (Nat.eq_dec i 0) as [->|Hne]; [apply Qle_refl|].
    apply Qlt_le_weak. apply linspace_point_lt; [assumption | lia]. }
  assert (Hhi : x <= dMax).
  { rewrite <- Ex, linspace_values_nth by (assumption || lia).
    rewrite <- (linspace_last_point dMin dMax 1198) at 2.
    destruct (Nat.eq_dec i 1199) as [->|Hne]; [apply Qle_refl|].
    apply Qlt_le_weak. apply linspace_point_lt; [assumption | lia]. }
  split.
  - exists m1, M1. repeat split; try assumption; lra.
  - exists m2, M2. repeat split; try assumption; lra.
Qed.

Lemma overlap_grid_within_ranges_witness :
  exists g,
    dist lap_A lap_B = map Fin g
    /\ length g = 1200%nat
    /\ forall x, In x g ->
         within x (Distance lap_A) /\ within x (Distance lap_B).
Proof.
  apply (overlap_grid_within_ranges lap_A lap_B);
    [simpl; lia | simpl; lia | reflexivity].
Defined.

(** ** Interpolated values stay within the recorded values *)

Lemma within_nth (fp : list Q) (k : nat) :
  (k < length fp)%nat -> within (nth k fp 0) fp.
Proof.
  intros H. exists (nth k fp 0), (nth k fp 0).
  repeat split; try (now apply nth_In); apply Qle_refl.
Qed.

Lemma within_at (fp : list Q) (j : Z) :
  (0 <= j < Z.of_nat (length fp))%Z -> within (at_ fp j) fp.
Proof. intros H. unfold at_. apply within_nth. lia. Qed.

(** A point of the segment between two values lies between them. *)
Lemma segment_between (f0 f1 a0 a1 x : Q) :
  a0 < x -> x < a1 ->
  let v := (f1 - f0) / (a1 - a0) * (x - a0) + f0 in
  (f0 <= v /\ v <= f1) \/ (f1 <= v /\ v <= f0).
Proof.
  intros H0 H1 v.
  set (t := (x - a0) / (a1 - a0)).
  assert (Ht0 : 0 <= t) by (apply Qle_shift_div_l; lra).
  assert (Ht1 : t <= 1) by (apply Qle_shift_div_r; lra).
  assert (Ev : v == f0 + (f1 - f0) * t).
  { unfold v, t. field. lra. }
  destruct (Qlt_le_dec f1 f0) as [Hlt|Hle].
  - right. rewrite Ev. split; nra.
  - left. rewrite Ev. split; nra.
Qed.

Lemma interp_point_within (xp fp : list Q) (j : Z) (x : Q) :
  nondecreasingb xp = true -> (2 <= length xp)%nat ->
  length fp = length xp ->
  within (snd (interp_point xp fp (Z.of_nat (length xp)) (at_ fp 0)
                 (at_ fp (Z.of_nat (length xp) - 1)) j x)) fp.
Proof.
  intros Hs Hn Hlen. unfold interp_point.
  destruct (binary_search_with_guess_spec xp x (Z.of_nat (length xp))
              eq_refl ltac:(lia) Hs j)
    as [[Ej _] | [[Ej _] | [Hb _]]];
    set (j' := binary_search_with_guess x xp (Z.of_nat (length xp)) j) in *.
  - replace (j' =? -1)%Z with false by (symmetry; lia).
    replace (j' =? Z.of_nat (length xp))%Z with true by (symmetry; lia).
    cbn [snd]. apply within_at. lia.
  - replace (j' =? -1)%Z with true by (symmetry; lia).
    cbn [snd]. apply within_at. lia.
  - destruct Hb as (Hr & Hle & Hnext).
    replace (j' =? -1)%Z with false by (symmetry; lia).
    replace (j' =? Z.of_nat (length xp))%Z with false by (symmetry; lia).
    destruct (j' =? Z.of_nat (length xp) - 1)%Z eqn:Elast; cbn [snd].
    { apply within_at. lia. }
    apply Z.eqb_neq in Elast.
    destruct (Qeq_bool (at_ xp j') x) eqn:Eeq; cbn [snd].
    { apply within_at. lia. }
    apply Qeq_bool_neq in Eeq.
    assert (H0 : at_ xp j' < x).
    { apply Qle_lt_or_eq in Hle. destruct Hle as [H|H]; [assumption|].
      contradiction. }
    assert (H1 : x < at_ xp (j' + 1)) by (apply Hnext; lia).
    destruct (segment_between (at_ fp j') (at_ fp (j' + 1)) _ _ _ H0 H1)
      as [[A B]|[A B]].
    + exists (at_ fp j'), (at_ fp (j' + 1)). unfold at_ at 1 2.
      repeat split; try assumption; apply nth_In; lia.
    + exists (at_ fp (j' + 1)), (at_ fp j'). unfold at_ at 1 2.
      repeat split; try assumption; apply nth_In; lia.
Qed.

Lemma interp_loop_within (xp fp g : list Q) :
  nondecreasingb xp = true -> (2 <= length xp)%nat ->
  length fp = length xp ->
  forall j,
    Forall (fun o => exists v, o = Fin v /\ within v fp)
      (interp_loop xp fp (Z.of_nat (length xp)) (at_ fp 0)
         (at_ fp (Z.of_nat (length xp) - 1)) j (map Fin g)).
Proof.
  intros Hs Hn Hlen. induction g as [|x r IH]; intros j; simpl.
  - constructor.
  - pose proof (interp_point_within xp fp j x Hs Hn Hlen) as W.
    destruct (interp_point xp fp _ _ _ j x) as [j' v]. simpl in W.
    constructor; [eauto | apply IH].
Qed.

Lemma np_interp_within (g xp fp : list Q) :
  xp <> [] -> length fp = length xp -> nondecreasingb xp = true ->
  exists out,
    np_interp (map Fin g) xp fp = Ok out
    /\ Forall (fun o => exists v, o = Fin v /\ within v fp) out.
Proof.
  intros Hne Hlen Hs. unfold np_interp.
  destruct xp as [|x0 xr]; [congruence|].
  replace (Z.of_nat (length (x0 :: xr)) =? 0)%Z with false
    by (symmetry; apply Z.eqb_neq; simpl length; lia).
  rewrite Hlen, Z.eqb_refl. cbn [negb].
  destruct (Z.of_nat (length (x0 :: xr)) =? 1)%Z eqn:E1.
  - apply Z.eqb_eq in E1. destruct xr; [|simpl length in E1; lia].
    destruct fp as [|f0 [|? ?]]; try discriminate Hlen.
    eexists. split; [reflexivity|].
    rewrite Forall_forall. intros o Ho.
    apply in_map_iff in Ho. destruct Ho as (q & <- & _).
    exists f0. split.
    + change (at_ [f0] (Z.of_nat (length [x0]) - 1)) with f0.
      change (at_ [f0] 0) with f0.
      destruct (flt _ _); [reflexivity|]. destruct (fgt _ _); reflexivity.
    + apply (within_nth [f0] 0). simpl. lia.
  - apply Z.eqb_neq in E1. eexists. split; [reflexivity|].
    apply interp_loop_within; try assumption. simpl length in *. lia.
Qed.

(** X13. For two non-empty laps with non-decreasing distances, every speed
    of the comparison lies between two speeds recorded for that lap: the
    interpolation never leaves the range of the lap's own samples. *)
Theorem speeds_within_recorded (tel1 tel2 : telemetry) :
  frame_ok tel1 = true -> frame_ok tel2 = true ->
  (0 < length (Distance tel1))%nat -> (0 < length (Distance tel2))%nat ->
  nondecreasingb (Distance tel1) = true ->
  nondecreasingb (Distance tel2) = true ->
  exists c,
    compare_fastest tel1 tel2 = Ok c
    /\ Forall (fun o => exists v, o = Fin v /\ within v (Speed tel1))
         (comp_Speed1 c)
    /\ Forall (fun o => exists v, o = Fin v /\ within v (Speed tel2))
         (comp_Speed2 c).
Proof.
  intros F1 F2 N1 N2 S1 S2.
  destruct (grid_finite tel1 tel2 N1 N2) as (g & Hg).
  destruct (np_interp_within g (Distance tel1) (Speed tel1)
              (nonempty_length _ N1) (frame_ok_Speed _ F1) S1)
    as (s1 & E1 & W1).
  destruct (np_interp_within g (Distance tel2) (Speed tel2)
              (nonempty_length _ N2) (frame_ok_Speed _ F2) S2)
    as (s2 & E2 & W2).
  exists {| comp_Distance := map Fin g; comp_Speed1 := s1;
            comp_Speed2 := s2 |}.
  unfold compare_fastest. rewrite Hg, E1, E2. simpl. auto.
Qed.

Lemma speeds_within_recorded_witness :
  exists c,
    compare_fastest lap_A lap_B = Ok c
    /\ Forall (fun o => exists v, o = Fin v /\ within v (Speed lap_A))
         (comp_Speed1 c)
    /\ Forall (fun o => exists v, o = Fin v /\ within v (Speed lap_B))
         (comp_Speed2 c).
Proof.
  apply (speeds_within_recorded lap_A lap_B);
    [reflexivity | reflexivity | simpl; lia | simpl; lia
     | reflexivity | reflexivity].
Defined.

(** ** [np.interp] works point by point *)

Lemma search_guess_irrelevant (arr : list Q) (key : Q) (g1 g2 : Z) :
  nondecreasingb arr = true -> (1 <= length arr)%nat ->
  binary_search_with_guess key arr (Z.of_nat (length arr)) g1
  = binary_search_with_guess key arr (Z.of_nat (length arr)) g2.
Proof.
  intros Hs Hn.
  destruct (binary_search_with_guess_spec arr key (Z.of_nat (length arr))
              eq_refl ltac:(lia) Hs g1)
    as [[E1 A1] | [[E1 A1] | [B1 [L1 U1]]]];
  destruct (binary_search_with_guess_spec arr key (Z.of_nat (length arr))
              eq_refl ltac:(lia) Hs g2)
    as [[E2 A2] | [[E2 A2] | [B2 [L2 U2]]]];
    try congruence; try (exfalso; lra).
  - exfalso.
    pose proof (at_sorted arr (Z.of_nat (length arr)) eq_refl Hs 0
                  (Z.of_nat (length arr) - 1) ltac:(lia) ltac:(lia)). lra.
  - exfalso.
    pose proof (at_sorted arr (Z.of_nat (length arr)) eq_refl Hs 0
                  (Z.of_nat (length arr) - 1) ltac:(lia) ltac:(lia)). lra.
  - now apply (bracket_unique arr key (Z.of_nat (length arr)) eq_refl Hs).
Qed.

Lemma interp_loop_guess_irrelevant (xp fp : list Q) (lval rval : Q)
    (dz : list pyfloat) :
  nondecreasingb xp = true -> (1 <= length xp)%nat ->
  forall j1 j2,
    interp_loop xp fp (Z.of_nat (length xp)) lval rval j1 dz
    = interp_loop xp fp (Z.of_nat (length xp)) lval rval j2 dz.
Proof.
  intros Hs Hn. induction dz as [|[x|] r IH]; intros j1 j2; simpl.
  - reflexivity.
  - unfold interp_point.
    rewrite (search_guess_irrelevant xp x j1 j2 Hs Hn).
    destruct (_ =? -1)%Z; [reflexivity|].
    destruct (_ =? Z.of_nat (length xp))%Z; [reflexivity|].
    destruct (_ =? Z.of_nat (length xp) - 1)%Z; [reflexivity|].
    destruct (Qeq_bool _ _); reflexivity.
  - f_equal. apply IH.
Qed.

Lemma interp_loop_app (xp fp : list Q) (lval rval : Q)
    (x y : list pyfloat) :
  nondecreasingb xp = true -> (1 <= length xp)%nat ->
  forall j,
    interp_loop xp fp (Z.of_nat (length xp)) lval rval j (x ++ y)
    = interp_loop xp fp (Z.of_nat (length xp)) lval rval j x
      ++ interp_loop xp fp (Z.of_nat (length xp)) lval rval j y.
Proof.
  intros Hs Hn. induction x as [|[q|] r IH]; intros j; simpl.
  - reflexivity.
  - destruct (interp_point xp fp _ lval rval j q) as [j' v]. simpl.
    f_equal. rewrite IH. f_equal.
    now apply interp_loop_guess_irrelevant.
  - f_equal. apply IH.
Qed.

(** X14. On non-decreasing sample distances [np.interp] treats every query
    point on its own: the result for two arrays of query points put end to
    end is the two results put end to end.  The search index carried from
    one query to the next changes nothing. *)
Theorem np_interp_app (x y : list pyfloat) (xp fp : list Q) :
  (0 < length xp)%nat -> length fp = length xp ->
  nondecreasingb xp = true ->
  exists o1 o2,
    np_interp x xp fp = Ok o1
    /\ np_interp y xp fp = Ok o2
    /\ np_interp (x ++ y) xp fp = Ok (o1 ++ o2).
Proof.
  intros Hn Hlen Hs. unfold np_interp.
  replace (Z.of_nat (length xp) =? 0)%Z with false
    by (symmetry; apply Z.eqb_neq; lia).
  rewrite Hlen, Z.eqb_refl. cbn [negb].
  destruct (Z.of_nat (length xp) =? 1)%Z.
  - eexists. eexists. repeat split. now rewrite map_app.
  - eexists. eexists. repeat split.
    now rewrite interp_loop_app by (assumption || lia).
Qed.

Lemma np_interp_app_witness :
  exists o1 o2,
    np_interp [Fin 0; Fin 75] (Distance lap_A) (Speed lap_A) = Ok o1
    /\ np_interp [NaN; Fin 25] (Distance lap_A) (Speed lap_A) = Ok o2
    /\ np_interp ([Fin 0; Fin 75] ++ [NaN; Fin 25]) (Distance lap_A)
         (Speed lap_A) = Ok (o1 ++ o2).
Proof.
  apply np_interp_app; [simpl; lia | reflexivity | reflexivity].
Defined.

(** ** The sign of the lap-time delta *)


Example delta_seconds_sign_scenario :
  delta_str (delta_seconds {| LapTime := Timedelta 79800000000 |}
                           {| LapTime := Timedelta 80500000000 |})
  = "-0.700s"%string
  /\ delta_str (delta_seconds {| LapTime := Timedelta 80500000000 |}
                              {| LapTime := Timedelta 80500000000 |})
     = "+0.000s"%string.
Proof. split; reflexivity. Qed.

(** ** A seconds field that reads 60.000 *)



Example format_laptime_sixty_scenario :
  format_laptime (Timedelta 119999600000) = Ok "1:60.000"%string.
Proof. reflexivity. Qed.

(** ** The fallback grid and lap A's own speeds *)

Lemma np_interp_self_increasing (xp fp : list Q) :
  xp <> [] -> length fp = length xp -> increasingb xp = true ->
  np_interp (to_numpy xp) xp fp = Ok (to_numpy fp).
Proof.
  intros Hne Hlen Hinc.
  destruct (np_interp_spec xp xp fp Hne Hlen
              (increasingb_nondecreasingb _ Hinc)) as (out & E & L & P).
  unfold to_numpy. rewrite E. f_equal.
  apply nth_ext with (d := NaN) (d' := NaN).
  - now rewrite length_map, Hlen.
  - intros i Hi. rewrite L in Hi.
    destruct (P i Hi) as (v & Ev & _ & _ & Hat & _).
    rewrite Ev, (nth_map_in _ _ _ 0) by (now rewrite Hlen).
    f_equal. apply Hat; [assumption | reflexivity|].
    intros Hn. apply increasingb_step; assumption.
Qed.

(** X17. When the ranges do not overlap and lap A's distances increase
    strictly, the comparison holds lap A exactly as recorded: its distances
    as the grid and its speeds as the first speed column. *)
Theorem fallback_keeps_own_speeds (tel1 tel2 : telemetry) :
  frame_ok tel1 = true -> frame_ok tel2 = true ->
  (0 < length (Distance tel2))%nat ->
  fle (dmax tel1 tel2) (dmin tel1 tel2) = true ->
  increasingb (Distance tel1) = true ->
  exists s2,
    compare_fastest tel1 tel2
    = Ok {| comp_Distance := to_numpy (Distance tel1);
            comp_Speed1 := to_numpy (Speed tel1);
            comp_Speed2 := s2 |}.
Proof.
  intros F1 F2 N2 Hno Hinc.
  assert (N1 : Distance tel1 <> []).
  { intros E. unfold dmax, dmin in Hno. rewrite E in Hno.
    simpl in Hno. unfold py_min in Hno.
    destruct (series_max (Distance tel2)); discriminate Hno. }
  assert (Hg : dist tel1 tel2 = to_numpy (Distance tel1))
    by (unfold dist; now rewrite Hno).
  destruct (np_interp_ok (to_numpy (Distance tel1)) (Distance tel2)
              (Speed tel2) (nonempty_length _ N2) (frame_ok_Speed _ F2))
    as (s2 & E2 & _).
  exists s2. unfold compare_fastest. rewrite Hg.
  rewrite (np_interp_self_increasing _ _ N1 (frame_ok_Speed _ F1) Hinc).
  simpl. now rewrite E2.
Qed.

Lemma fallback_keeps_own_speeds_witness :
  exists s2,
    compare_fastest lap_near lap_far
    = Ok {| comp_Distance := to_numpy (Distance lap_near);
            comp_Speed1 := to_numpy (Speed lap_near);
            comp_Speed2 := s2 |}.
Proof.
  apply (fallback_keeps_own_speeds lap_near lap_far);
    [reflexivity | reflexivity | simpl; lia | reflexivity | reflexivity].
Defined.

(** ** The overlap grid does not depend on the order of the laps *)

Lemma linspace_point_comp (a b a' b' : Q) (n i : nat) :
  a == a' -> b == b' -> linspace_point a b n i == linspace_point a' b' n i.
Proof. intros Ea Eb. unfold linspace_point. now rewrite Ea, Eb. Qed.

Lemma dmin_swap (tel1 tel2 : telemetry) (m m' : Q) :
  dmin tel1 tel2 = Fin m -> dmin tel2 tel1 = Fin m' -> m == m'.
Proof.
  unfold dmin.
  destruct (series_min (Distance tel1)) as [m1|],
           (series_min (Distance tel2)) as [m2|];
    try discriminate; intros H H'.
  destruct (py_max_fin m1 m2) as (x & Ex & Hx).
  destruct (py_max_fin m2 m1) as (y & Ey & Hy).
  assert (x = m) by congruence. assert (y = m') by congruence. subst.
  rewrite Hx, Hy. apply Q.max_comm.
Qed.

Lemma dmax_swap (tel1 tel2 : telemetry) (m m' : Q) :
  dmax tel1 tel2 = Fin m -> dmax tel2 tel1 = Fin m' -> m == m'.
Proof.
  unfold dmax.
  destruct (series_max (Distance tel1)) as [m1|],
           (series_max (Distance tel2)) as [m2|];
    try discriminate; intros H H'.
  destruct (py_min_fin m1 m2) as (x & Ex & Hx).
  destruct (py_min_fin m2 m1) as (y & Ey & Hy).
  assert (x = m) by congruence. assert (y = m') by congruence. subst.
  rewrite Hx, Hy. apply Q.min_comm.
Qed.

(** X18. When both laps have samples and their ranges overlap, comparing
    A with B and comparing B with A use the same grid: 1200 values that are
    pairwise equal as numbers. *)
Theorem overlap_grid_symmetric (tel1 tel2 : telemetry) :
  (0 < length (Distance tel1))%nat -> (0 < length (Distance tel2))%nat ->
  fle (dmax tel1 tel2) (dmin tel1 tel2) = false ->
  exists g g',
    dist tel1 tel2 = map Fin g
    /\ dist tel2 tel1 = map Fin g'
    /\ length g = 1200%nat
    /\ length g' = 1200%nat
    /\ forall i, nth i g 0 == nth i g' 0.
Proof.
  intros N1 N2 Hov.
  destruct (grid_cases tel1 tel2 N1 N2)
    as (a & b & Ha & Hb & [[Hle _]|[Hlt Hg]]).
  { rewrite Ha, Hb in Hov. unfold fle, fcmp in Hov.
    apply Qle_bool_false in Hov. lra. }
  destruct (grid_cases tel2 tel1 N2 N1)
    as (a' & b' & Ha' & Hb' & Hcase).
  pose proof (dmin_swap _ _ _ _ Ha Ha') as Ea.
  pose proof (dmax_swap _ _ _ _ Hb Hb') as Eb.
  destruct Hcase as [[Hle _]|[Hlt' Hg']]; [lra|].
  exists (linspace_values a b 1198), (linspace_values a' b' 1198).
  split; [exact Hg|]. split; [exact Hg'|].
  split; [apply linspace_values_length|].
  split; [apply linspace_values_length|].
  intros i. destruct (Nat.le_gt_cases i 1199) as [Hi|Hi].
  - rewrite !linspace_values_nth by assumption.
    now apply linspace_point_comp.
  - rewrite !nth_overflow by (rewrite linspace_values_length; lia).
    reflexivity.
Qed.

Lemma overlap_grid_symmetric_witness :
  exists g g',
    dist lap_A lap_B = map Fin g
    /\ dist lap_B lap_A = map Fin g'
    /\ length g = 1200%nat
    /\ length g' = 1200%nat
    /\ forall i, nth i g 0 == nth i g' 0.
Proof.
  apply (overlap_grid_symmetric lap_A lap_B);
    [simpl; lia | simpl; lia | reflexivity].
Defined.

(** ** The season options *)

(** X19. The season select box offers every year from [min_year] to
    [max_year] and no other, each once, the newest first; with the newest
    first, the box's default (index 0) is [max_year]. *)
Theorem season_options_spec (min_year max_year : Z) :
  (forall y, In y (season_options min_year max_year)
             <-> (min_year <= y <= max_year)%Z)
  /\ StronglySorted (fun a b => (b < a)%Z) (season_options min_year max_year)
  /\ ((min_year <= max_year)%Z ->
      nth 0 (season_options min_year max_year) 0%Z = max_year).
Proof.
  unfold season_options, range_down.
  set (n := Z.to_nat (max_year - (min_year - 1))).
  split; [|split].
  - intros y. rewrite in_map_iff. split.
    + intros (i & <- & Hi). apply in_seq in Hi. unfold n in Hi. lia.
    + intros H. exists (Z.to_nat (max_year - y)). split; [lia|].
      apply in_seq. unfold n. lia.
  - clearbody n. generalize 0%nat as k.
    induction n as [|n' IH]; intros k; simpl; constructor.
    + apply IH.
    + rewrite Forall_forall. intros z Hz.
      apply in_map_iff in Hz. destruct Hz as (i & <- & Hi).
      apply in_seq in Hi. lia.
  - intros H. assert (E : n = S (Z.to_nat (max_year - min_year)))
      by (unfold n; lia).
    rewrite E. simpl. lia.
Qed.

Example season_options_scenario :
  season_options 2018 2025
  = [2025; 2024; 2023; 2022; 2021; 2020; 2019; 2018]%Z.
Proof. reflexivity. Qed.
